(** * miniwdl command-line front end (WDL/CLI.py)

    A shallow embedding of the input-resolution and run-classification
    pipeline of [WDL/CLI.py]: target resolution ([runner_exe]), command-line
    value coercion ([runner_input_value]), path validation
    ([validate_input_path]), input merging ([runner_input]), failure
    unwrapping in [runner], and the exit-code decision of [check]
    ([outline], [_determine_exit_code]).

    Python exceptions are modelled by the [Result] type; mutable locals by
    explicit state passing; operating-system and library calls that the file
    only consumes are section variables. *)

From Stdlib Require Import ZArith Lia Ascii String.
From stdpp Require Import base strings list gmap.

Set Warnings "-register-all,-clear-no-such-hyp".


Local Open Scope string_scope.
Local Open Scope list_scope.

(** ** Exceptions and results *)

(** The exception classes that can leave the modelled functions. *)
Inductive Exn : Type :=
| InputError (msg : string)   (* Error.InputError(msg) *)
| ValueError                  (* raised by the builtins int() and float() *)
| AssertionError              (* a failed assert statement *)
| IndexError                  (* list index out of range *)
| OSError.                    (* re-raised by the os.walk onerror handler *)

Inductive Result (A : Type) : Type :=
| Ok (a : A)
| Raise (e : Exn).
Arguments Ok {A} a.
Arguments Raise {A} e.

Definition rbind {A B} (k : A -> Result B) (r : Result A) : Result B :=
  match r with
  | Ok a => k a
  | Raise e => Raise e
  end.

#[global] Instance Result_bind : MBind Result := @rbind.
#[global] Instance Result_ret : MRet Result := @Ok.

Definition is_input_error {A} (r : Result A) : bool :=
  match r with
  | Raise (InputError _) => true
  | _ => false
  end.

(** Truthiness of a Python [str]: the empty string is falsy. *)
Definition truthy_str (s : string) : bool :=
  match s with
  | EmptyString => false
  | _ => true
  end.

(** Truthiness of an [Optional[str]]: [None] and [""] are falsy. *)
Definition truthy_ostr (o : option string) : bool :=
  match o with
  | Some s => truthy_str s
  | None => false
  end.

(** [contains sub s]: [sub in s] on Python strings. *)
Fixpoint contains (sub s : string) : bool :=
  String.prefix sub s ||
  match s with
  | EmptyString => false
  | String _ s' => contains sub s'
  end.

(** ** WDL types (the part of [Type] that CLI.py inspects) *)

Inductive Ty : Type :=
| TString (optional : bool)
| TFile (optional : bool)
| TDirectory (optional : bool)
| TBoolean (optional : bool)
| TInt (optional : bool)
| TFloat (optional : bool)
| TArray (item_type : Ty) (optional nonempty : bool)
| TPair (left_type right_type : Ty) (optional : bool)
| TMap (key_type value_type : Ty) (optional : bool)
| TStructInstance (type_name : string) (optional : bool)
| TAny (optional : bool)
| TObject (optional : bool).

(** [ty.optional] *)
Definition ty_optional (ty : Ty) : bool :=
  match ty with
  | TString o | TFile o | TDirectory o | TBoolean o | TInt o | TFloat o
  | TArray _ o _ | TPair _ _ o | TMap _ _ o | TStructInstance _ o
  | TAny o | TObject o => o
  end.

(** Modelled from the spec: [str(ty)], the WDL surface syntax of a type
    ([Type.Base.__str__] is not part of CLI.py): the type name, [+] on a
    nonempty array and a trailing [?] when optional. *)
Fixpoint ty_str (ty : Ty) : string :=
  let q (o : bool) := if o then "?" else "" in
  match ty with
  | TString o => "String" ++ q o
  | TFile o => "File" ++ q o
  | TDirectory o => "Directory" ++ q o
  | TBoolean o => "Boolean" ++ q o
  | TInt o => "Int" ++ q o
  | TFloat o => "Float" ++ q o
  | TArray t o ne => "Array[" ++ ty_str t ++ "]" ++ (if ne then "+" else "") ++ q o
  | TPair l r o => "Pair[" ++ ty_str l ++ "," ++ ty_str r ++ "]" ++ q o
  | TMap k v o => "Map[" ++ ty_str k ++ "," ++ ty_str v ++ "]" ++ q o
  | TStructInstance n o => n ++ q o
  | TAny o => "Any" ++ q o
  | TObject o => "Object" ++ q o
  end.

(** ** Documents and targets *)

(** A declaration: [Decl.name] and [Decl.type]. *)
Record Decl : Type := mkDecl {
  decl_name : string;
  decl_type : Ty
}.

(** An executable (workflow or task) as [runner_input] sees it: its name and
    its [available_inputs] and [required_inputs] environments, iterated in
    order. *)
Record Exe : Type := mkExe {
  exe_name : string;
  available_inputs : list (string * Decl);
  required_inputs : list (string * Decl)
}.

Inductive Target : Type :=
| TargetWorkflow (w : Exe)
| TargetTask (t : Exe).

Definition target_exe (t : Target) : Exe :=
  match t with
  | TargetWorkflow e | TargetTask e => e
  end.

(** [Document]: [doc.workflow] is [None] or a workflow, [doc.tasks] a list. *)
Record Document : Type := mkDocument {
  workflow : option Exe;
  tasks : list Exe
}.

(** [next((t for t in doc.tasks if t.name == task_name), None)] *)
Fixpoint find_task (task_name : string) (ts : list Exe) : option Exe :=
  match ts with
  | [] => None
  | t :: ts' => if String.eqb (exe_name t) task_name then Some t
                else find_task task_name ts'
  end.

(** [runner_exe(doc, task_name=None)] *)
Definition runner_exe (doc : Document) (task_name : option string)
  : Result Target :=
  if truthy_ostr task_name then
    let name := default "" task_name in
    match find_task name (tasks doc) with
    | Some t => Ok (TargetTask t)
    | None => Raise (InputError ("no such task " ++ name ++ " in document"))
    end
  else
    match workflow doc with
    | Some w => Ok (TargetWorkflow w)
    | None =>
        if Nat.eqb (List.length (tasks doc)) 1 then
          match tasks doc !! 0%nat with
          | Some t => Ok (TargetTask t)
          | None => Raise IndexError
          end
        else if Nat.ltb 1 (List.length (tasks doc)) then
          Raise (InputError
            "specify --task for WDL document with multiple tasks and no workflow")
        else
          Raise (InputError "Empty WDL document")
    end.

(** ** Python string builtins used by CLI.py (on ASCII text) *)

(** [str.isalpha()] of one character, restricted to ASCII letters. *)
Definition isalpha (c : ascii) : bool :=
  let n := nat_of_ascii c in
  ((65 <=? n) && (n <=? 90) || (97 <=? n) && (n <=? 122))%nat.

(** [s.find(c)]: index of the first occurrence, [None] for [-1]. *)
Fixpoint str_find (c : ascii) (s : string) : option nat :=
  match s with
  | EmptyString => None
  | String a s' => if Ascii.eqb a c then Some 0%nat
                   else S <$> str_find c s'
  end.

(** [s.split(c, 1)]: [[s]] when [c] does not occur, else the text before
    and the text after its first occurrence. *)
Fixpoint split_once (c : ascii) (s : string) : list string :=
  match s with
  | EmptyString => [EmptyString]
  | String a s' =>
      if Ascii.eqb a c then [EmptyString; s']
      else match split_once c s' with
           | x :: rest => String a x :: rest
           | [] => []
           end
  end.

(** [s.split(c)] *)
Fixpoint split_on (c : ascii) (s : string) : list string :=
  match s with
  | EmptyString => [EmptyString]
  | String a s' =>
      if Ascii.eqb a c then EmptyString :: split_on c s'
      else match split_on c s' with
           | x :: rest => String a x :: rest
           | [] => []
           end
  end.

(** [sep.join(parts)] *)
Fixpoint join (sep : string) (parts : list string) : string :=
  match parts with
  | [] => ""
  | [x] => x
  | x :: rest => x ++ sep ++ join sep rest
  end.

(** [next((i for i, term in enumerate(parts) if term in (t,)), -1)] *)
Fixpoint index_of (t : string) (parts : list string) : option nat :=
  match parts with
  | [] => None
  | x :: rest => if String.eqb x t then Some 0%nat else S <$> index_of t rest
  end.

(** *** [int(s)] for base 10: surrounding whitespace is stripped, one sign is
    allowed, and single underscores may separate digits. [None] stands for
    [ValueError]. *)

Definition is_space (c : ascii) : bool :=
  let n := nat_of_ascii c in
  ((n =? 32) || (9 <=? n) && (n <=? 13))%nat.

Definition digit_val (c : ascii) : option Z :=
  let n := nat_of_ascii c in
  if ((48 <=? n) && (n <=? 57))%nat then Some (Z.of_nat (n - 48)) else None.

Fixpoint lstrip (s : string) : string :=
  match s with
  | String c s' => if is_space c then lstrip s' else s
  | EmptyString => EmptyString
  end.

Fixpoint str_rev_onto (s acc : string) : string :=
  match s with
  | EmptyString => acc
  | String c s' => str_rev_onto s' (String c acc)
  end.

Definition str_rev (s : string) : string := str_rev_onto s EmptyString.

Definition strip (s : string) : string :=
  str_rev (lstrip (str_rev (lstrip s))).

Fixpoint parse_digits (acc : Z) (prev_digit : bool) (s : string) : option Z :=
  match s with
  | EmptyString => if prev_digit then Some acc else None
  | String c s' =>
      match digit_val c with
      | Some d => parse_digits (acc * 10 + d) true s'
      | None =>
          if Ascii.eqb c "_" && prev_digit then parse_digits acc false s'
          else None
      end
  end.

Definition py_int (s : string) : option Z :=
  match strip s with
  | String "-" ds => Z.opp <$> parse_digits 0 false ds
  | String "+" ds => parse_digits 0 false ds
  | ds => parse_digits 0 false ds
  end.

(** ** POSIX path helpers that are pure string functions *)

(** [os.path.isabs(p)] *)
Definition os_path_isabs (p : string) : bool := String.prefix "/" p.

Definition ends_with_slash (p : string) : bool :=
  match str_rev p with
  | String "/" _ => true
  | _ => false
  end.

(** [os.path.join(a, b)] for two components *)
Definition os_path_join (a b : string) : string :=
  if os_path_isabs b then b
  else if negb (truthy_str a) || ends_with_slash a then a ++ b
  else a ++ "/" ++ b.

(** ** The local filesystem, as queried by the Path Validator *)

(** One item produced by the [os.walk(path, onerror=raiser,
    followlinks=False)] generator: a directory with its sub-directory and
    file names, or the [OSError] that the [onerror] handler re-raises. *)
Inductive WalkItem : Type :=
| WalkYield (root : string) (subdirs files : list string)
| WalkOSError.

Record FileSystem : Type := mkFileSystem {
  os_path_isdir : string -> bool;
  os_path_isfile : string -> bool;
  os_path_abspath : string -> string;
  os_path_expanduser : string -> string;
  path_really_within : string -> string -> bool;
  os_walk : string -> list WalkItem;
  os_path_islink : string -> bool;
  os_path_exists : string -> bool;
  os_readlink : string -> string
}.

(** The queries of the local filesystem, in the order they are issued. *)
Inductive FsOp : Type :=
| OpIsdir (p : string)
| OpIsfile (p : string)
| OpAbspath (p : string)
| OpWithin (p root : string)
| OpWalk (p : string)
| OpIslink (p : string)
| OpExists (p : string)
| OpReadlink (p : string).

Section InputResolution.

(** Python floats, and [float(s)] ([None] stands for [ValueError]). *)
Variable PyFloat : Type.
Variable py_float : string -> option PyFloat.

(** ** Values (the part of [Value] that CLI.py builds and inspects) *)

Inductive Value : Type :=
| VString (value : string)
| VFile (value : string)
| VDirectory (value : string)
| VBoolean (value : bool)
| VInt (value : Z)
| VFloat (value : PyFloat)
| VArray (item_type : Ty) (value : list Value)
| VPair (left right : Value)
| VMap (entries : list (Value * Value))
| VStruct (members : list (string * Value))
| VNull.

(** [isinstance(v, Value.Array)] *)
Definition is_array (v : Value) : bool :=
  match v with
  | VArray _ _ => true
  | _ => false
  end.

(** Decoded JSON, [json.loads] (the text of the [JSONDecodeError] on the
    right) and [Value.from_json]. *)
Variable JSON : Type.
Variable json_loads : string -> JSON + string.
Variable value_from_json : Ty -> JSON -> Result Value.

(** [v.type.coerces(existing.type)], the type system's own rule. *)
Variable type_coerces : Value -> Value -> bool.

Variable fs : FileSystem.

(** ** Path Validator *)

(** The test applied to one joined file name of the walk:
    [os.path.islink(fn) and (not os.path.exists(fn)
     or os.path.isabs(os.readlink(fn)) or not path_really_within(fn, path))],
    with the queries it issues. *)
Definition unusable_symlink (fn path : string) : list FsOp * bool :=
  if os_path_islink fs fn then
    if negb (os_path_exists fs fn) then
      ([OpIslink fn; OpExists fn], true)
    else if os_path_isabs (os_readlink fs fn) then
      ([OpIslink fn; OpExists fn; OpReadlink fn], true)
    else
      ([OpIslink fn; OpExists fn; OpReadlink fn; OpWithin fn path],
       negb (path_really_within fs fn path))
  else ([OpIslink fn], false).

(** [for fn in files: ...] of one walked directory: whether an unusable
    symlink was met. *)
Fixpoint check_files (root path : string) (files : list string)
  : list FsOp * bool :=
  match files with
  | [] => ([], false)
  | fn :: rest =>
      let '(ops, bad) := unusable_symlink (os_path_join root fn) path in
      if bad then (ops, true)
      else let '(ops', bad') := check_files root path rest in
           (ops ++ ops', bad')
  end.

(** [for root, subdirs, files in os.walk(path, ...): ...] *)
Fixpoint walk_check (path : string) (items : list WalkItem)
  : list FsOp * Result unit :=
  match items with
  | [] => ([], Ok tt)
  | WalkOSError :: _ => ([], Raise OSError)
  | WalkYield root _ files :: rest =>
      let '(ops, bad) := check_files root path files in
      if bad then
        (ops, Raise (InputError
                ("Input Directory contains unusable symlink: " ++ path)))
      else let '(ops', r) := walk_check path rest in
           (ops ++ ops', r)
  end.

(** [downloadable and downloadable(path, directory)] *)
Definition is_downloadable (downloadable : option (string -> bool -> bool))
  (path : string) (directory : bool) : bool :=
  match downloadable with
  | Some able => able path directory
  | None => false
  end.

(** [validate_input_path(path, directory, downloadable, root)], together
    with the filesystem queries it performs. *)
Definition validate_input_path_ops (path : string) (directory : bool)
  (downloadable : option (string -> bool -> bool)) (root : string)
  : list FsOp * Result string :=
  if is_downloadable downloadable path directory then ([], Ok path)
  else
    let '(ops1, found) :=
      if directory then ([OpIsdir path], os_path_isdir fs path)
      else ([OpIsfile path], os_path_isfile fs path) in
    if negb found then
      (ops1, Raise (InputError
         ((if directory then "Directory" else "File") ++ " not found: " ++ path)))
    else
      let path' := os_path_abspath fs path in
      let ops2 := ops1 ++ [OpAbspath path; OpWithin path' root] in
      if negb (path_really_within fs path' root) then
        (ops2, Raise (InputError
           ("File & Directory inputs must be located within the configured "
            ++ "`file_io.root' directory `" ++ root ++ "' unlike `"
            ++ path' ++ "'")))
      else if directory then
        let '(ops3, r) := walk_check path' (os_walk fs path') in
        (ops2 ++ OpWalk path' :: ops3, _ ← r; Ok path')
      else (ops2, Ok path').

Definition validate_input_path (path : string) (directory : bool)
  (downloadable : option (string -> bool -> bool)) (root : string)
  : Result string :=
  (validate_input_path_ops path directory downloadable root).2.

(** ** Typed Value Coercer *)

Definition no_command_line_support (ty : Ty) : Exn :=
  InputError ("No command-line support yet for inputs of type " ++ ty_str ty
              ++ "; workaround: specify in JSON file with --input").

(** [runner_input_value(s_value, ty, downloadable, root)] *)
Fixpoint runner_input_value (s_value : string) (ty : Ty)
  (downloadable : option (string -> bool -> bool)) (root : string)
  : Result Value :=
  match ty with
  | TString _ => Ok (VString s_value)
  | TFile _ =>
      p ← validate_input_path (os_path_expanduser fs s_value) false
            downloadable root;
      Ok (VFile p)
  | TDirectory _ =>
      p ← validate_input_path (os_path_expanduser fs s_value) true
            downloadable root;
      Ok (VDirectory p)
  | TBoolean _ =>
      if String.eqb s_value "true" then Ok (VBoolean true)
      else if String.eqb s_value "false" then Ok (VBoolean false)
      else Raise (InputError
             ("Boolean input should be true or false instead of `"
              ++ s_value ++ "'"))
  | TInt _ =>
      match py_int s_value with
      | Some n => Ok (VInt n)
      | None => Raise ValueError
      end
  | TFloat _ =>
      match py_float s_value with
      | Some x => Ok (VFloat x)
      | None => Raise ValueError
      end
  | TArray item _ _ =>
      match item with
      | TString _ | TFile _ | TDirectory _ | TInt _ | TFloat _ =>
          v ← runner_input_value s_value item downloadable root;
          Ok (VArray item [v])
      | _ => Raise (no_command_line_support ty)
      end
  | TPair _ _ _ | TMap _ _ _ | TStructInstance _ _ =>
      match json_loads s_value with
      | inl j => value_from_json ty j
      | inr exn =>
          Raise (InputError
            ("Invalid JSON for input of type " ++ ty_str ty
             ++ ", check syntax and shell quoting: " ++ exn))
      end
  | TAny _ =>
      match py_int s_value with
      | Some n => Ok (VInt n)
      | None =>
          match py_float s_value with
          | Some x => Ok (VFloat x)
          | None => Ok (VString s_value)
          end
      end
  | TObject _ => Raise (no_command_line_support ty)
  end.

(** ** Environments *)

(** Modelled from the spec: [Env.Bindings] (Env.py is not part of CLI.py) is
    an ordered mapping from names to values with unique keys; binding a name
    that already exists replaces it. *)
Fixpoint env_get {A} (name : string) (env : list (string * A)) : option A :=
  match env with
  | [] => None
  | (n, a) :: env' => if String.eqb n name then Some a else env_get name env'
  end.

Definition env_remove {A} (name : string) (env : list (string * A))
  : list (string * A) :=
  filter (fun b => b.1 ≠ name) env.

(** [env.bind(name, value)] *)
Definition env_bind {A} (name : string) (a : A) (env : list (string * A))
  : list (string * A) :=
  (name, a) :: env_remove name env.

(** [lhs.subtract(rhs)]: the bindings of [lhs] whose name [rhs] does not
    bind. *)
Definition env_subtract {A B} (lhs : list (string * A))
  (rhs : list (string * B)) : list (string * A) :=
  filter (fun b => env_get b.1 rhs = None) lhs.

(** The value object bound to [name] updated in place (the effect of
    [existing.value.extend(...)] on the environment that holds [existing]). *)
Fixpoint env_set {A} (name : string) (a : A) (env : list (string * A))
  : list (string * A) :=
  match env with
  | [] => []
  | (n, x) :: env' =>
      if String.eqb n name then (n, a) :: env'
      else (n, x) :: env_set name a env'
  end.

(** The keys of the [dict] built by inserting [names] in order: each key
    once, at the position of its first insertion. *)
Fixpoint dict_keys (names : list string) : list string :=
  match names with
  | [] => []
  | n :: rest => n :: filter (fun m => m ≠ n) (dict_keys rest)
  end.

(** ** Input Merger *)

(** A [for] loop whose body may raise. *)
Fixpoint for_each {S X} (body : S -> X -> Result S) (st : S) (xs : list X)
  : Result S :=
  match xs with
  | [] => Ok st
  | x :: xs' => st' ← body st x; for_each body st' xs'
  end.

Definition no_such_input (target : Exe) (name : string) : Exn :=
  InputError ("No such input to " ++ exe_name target ++ ": " ++ name).

(** The body of [for empty_name in empty or []]. *)
Definition empty_step (target : Exe) (input_env : list (string * Value))
  (empty_name : string) : Result (list (string * Value)) :=
  match env_get empty_name (available_inputs target) with
  | None => Raise (no_such_input target empty_name)
  | Some decl =>
      match decl_type decl with
      | TArray item _ nonempty =>
          if nonempty then
            Raise (InputError ("Cannot set input " ++ ty_str (decl_type decl)
                               ++ " " ++ decl_name decl ++ " to empty array"))
          else Ok (env_bind empty_name (VArray item []) input_env)
      | TString _ => Ok (env_bind empty_name (VString "") input_env)
      | ty =>
          let msg :=
            ("Cannot set " ++ ty_str ty ++ " " ++ decl_name decl
             ++ " to empty array or string")%string in
          Raise (InputError
                   (if ty_optional ty
                    then msg ++ "; perhaps you want --none " ++ decl_name decl
                    else msg))
      end
  end.

(** The body of [for none_name in none or []]. *)
Definition none_step (target : Exe) (input_env : list (string * Value))
  (none_name : string) : Result (list (string * Value)) :=
  match env_get none_name (available_inputs target) with
  | None => Raise (no_such_input target none_name)
  | Some decl =>
      if negb (ty_optional (decl_type decl)) then
        Raise (InputError ("Cannot set non-optional input "
                           ++ ty_str (decl_type decl) ++ " " ++ decl_name decl
                           ++ " to None"))
      else Ok (env_bind none_name VNull input_env)
  end.

(** [len_i > 1 and inputs[i].find("=") == len_i - 1] *)
Definition ends_at_equals (s : string) : bool :=
  let len_i := String.length s in
  (1 <? len_i)%nat && bool_decide (str_find "=" s = Some (len_i - 1)%nat).

(** The preprocessing loop: a token ending exactly at its [=] is merged with
    the token that follows it, and the scan resumes after the merged
    token. *)
Fixpoint merge_adjacent (inputs : list string) : list string :=
  match inputs with
  | [] => []
  | x :: rest =>
      match rest with
      | y :: rest' =>
          if ends_at_equals x then (x +:+ y) :: merge_adjacent rest'
          else x :: merge_adjacent rest
      | [] => [x]
      end
  end.

(** [buf = one_input.split("=", 1)] and the validity test on it. *)
Definition parse_name_value (one_input : string) : option (string * string) :=
  match one_input, split_once "=" one_input with
  | String c _, [name; s_value] =>
      if isalpha c && truthy_str name then Some (name, s_value) else None
  | _, _ => None
  end.

(** The declaration of a command-line name: [available_inputs.get(name)],
    else the [_runtime] declaration for a name with a [runtime] segment
    that is not its last. *)
Definition find_decl (target : Exe) (name : string) : option Decl :=
  match env_get name (available_inputs target) with
  | Some decl => Some decl
  | None =>
      let nmparts := split_on "." name in
      match index_of "runtime" nmparts with
      | Some runtime_idx =>
          if (runtime_idx + 1 <? List.length nmparts)%nat then
            env_get (join "." (take runtime_idx nmparts ++ ["_runtime"]))
                    (available_inputs target)
          else None
      | None => None
      end
  end.

(** The insertion of the coerced value [v] for [name]: the last statement of
    the loop over command-line tokens. Every [Value] object is truthy, so
    [existing and ...] tests that a binding exists. *)
Definition insert_value (name : string) (v : Value)
  (st : list (string * Value) * gset string)
  : Result (list (string * Value) * gset string) :=
  let '(input_env, json_keys) := st in
  match env_get name input_env with
  | Some existing =>
      if bool_decide (name ∉ json_keys) then
        match v with
        | VArray _ new_items =>
            match existing with
            | VArray item_type items =>
                if type_coerces v existing then
                  Ok (env_set name (VArray item_type (items ++ new_items))
                              input_env, json_keys)
                else Raise AssertionError
            | _ => Raise AssertionError
            end
        | _ => Raise (InputError ("non-array input " ++ name ++ " duplicated"))
        end
      else Ok (env_bind name v input_env, json_keys ∖ {[name]})
  | None => Ok (env_bind name v input_env, json_keys ∖ {[name]})
  end.

(** The body of [for one_input in inputs]. *)
Definition cli_step (target : Exe)
  (downloadable : option (string -> bool -> bool)) (root : string)
  (st : list (string * Value) * gset string) (one_input : string)
  : Result (list (string * Value) * gset string) :=
  match parse_name_value one_input with
  | None => Raise (InputError ("Invalid input name=value pair: " ++ one_input))
  | Some (name, s_value) =>
      match find_decl target name with
      | None => Raise (no_such_input target name)
      | Some decl =>
          v ← runner_input_value s_value (decl_type decl) downloadable root;
          insert_value name v st
      end
  end.

(** [values_to_json(target.required_inputs.subtract(input_env)).keys()] *)
Definition missing_inputs (target : Exe) (input_env : list (string * Value))
  : list string :=
  dict_keys (env_subtract (required_inputs target) input_env).*1.

(** The check for missing inputs. *)
Definition check_missing (target : Exe) (check_required : bool)
  (input_env : list (string * Value)) : Result unit :=
  if check_required then
    match missing_inputs target input_env with
    | [] => Ok tt
    | missing =>
        Raise (InputError ("missing required inputs for " ++ exe_name target
                           ++ ": " ++ join ", " missing))
    end
  else Ok tt.

(** [runner_input(doc, inputs, input_file, empty, none, task, check_required,
    downloadable, root)]. The outcome of [runner_input_json_file] (which
    rests on the YAML loader and [values_from_json]) is the argument
    [json_file]; the help text printed before an error and the JSON
    rendering returned next to the environment are left out. *)
Definition runner_input (doc : Document) (inputs : list string)
  (json_file : Result (list (string * Value))) (empty none : list string)
  (task : option string) (check_required : bool)
  (downloadable : option (string -> bool -> bool)) (root : string)
  : Result (Target * list (string * Value)) :=
  target ← runner_exe doc task;
  let exe := target_exe target in
  input_env ← json_file;
  let json_keys : gset string := list_to_set input_env.*1 in
  input_env ← for_each (empty_step exe) input_env empty;
  input_env ← for_each (none_step exe) input_env none;
  st ← for_each (cli_step exe downloadable root) (input_env, json_keys)
         (merge_adjacent inputs);
  _ ← check_missing exe check_required st.1;
  Ok (target, st.1).

End InputResolution.

Arguments VString {PyFloat} value.
Arguments VFile {PyFloat} value.
Arguments VDirectory {PyFloat} value.
Arguments VBoolean {PyFloat} value.
Arguments VInt {PyFloat} value.
Arguments VFloat {PyFloat} value.
Arguments VArray {PyFloat} item_type value.
Arguments VPair {PyFloat} left right.
Arguments VMap {PyFloat} entries.
Arguments VStruct {PyFloat} members.
Arguments VNull {PyFloat}.
Arguments is_array {PyFloat} v.
Arguments runner_input_value {PyFloat} py_float {JSON} json_loads
  value_from_json fs s_value ty downloadable root.
Arguments empty_step {PyFloat} target input_env empty_name.
Arguments none_step {PyFloat} target input_env none_name.
Arguments insert_value {PyFloat} type_coerces name v st.
Arguments cli_step {PyFloat} py_float {JSON} json_loads value_from_json
  type_coerces fs target downloadable root st one_input.
Arguments missing_inputs {PyFloat} target input_env.
Arguments check_missing {PyFloat} target check_required input_env.
Arguments runner_input {PyFloat} py_float {JSON} json_loads value_from_json
  type_coerces fs doc inputs json_file empty none task check_required
  downloadable root.

(** ** Run Orchestrator: unwrapping a failed run *)

(** What [runtime.run] can raise, as far as [runner] tells the classes
    apart. [RunFailed] carries its [run_dir] attribute and its [__cause__];
    [CommandFailed] its [exit_status] attribute, [None] when it is absent
    (read as 0 by [getattr(exn, "exit_status", 0)]). *)
Inductive EngineExn : Type :=
| RunFailed (run_dir : option string) (cause : option EngineExn)
| CommandFailed (exit_status : option Z)
| OtherRuntimeError
| EngineAssertionError
| OtherException.

(** [a or b] on [Optional[str]] *)
Definition py_or (a b : option string) : option string :=
  if truthy_ostr a then a else b.

(** The locals of the [except] block after the [while] loop:
    [rundir], [from_rundir] and the unwrapped [exn] ([None] when the
    innermost [RunFailed] has no cause). *)
Fixpoint unwrap_run_failed (exn : EngineExn) (rundir from_rundir : option string)
  : option string * option string * option EngineExn :=
  match exn with
  | RunFailed exn_rundir cause =>
      let rundir' := py_or rundir exn_rundir in
      match cause with
      | Some c => unwrap_run_failed c rundir' exn_rundir
      | None => (rundir', exn_rundir, None)
      end
  | _ => (rundir, from_rundir, Some exn)
  end.

(** [(lambda v: v if v else exit_status)(getattr(exn, "exit_status", 0))]
    for a [CommandFailed], with [exit_status = 2] before. *)
Definition failure_exit_status (exn : option EngineExn) : Z :=
  match exn with
  | Some (CommandFailed st) =>
      let v := default 0%Z st in
      if Z.eqb v 0 then 2%Z else v
  | _ => 2%Z
  end.

(** How the [except] block ends. *)
Inductive Outcome : Type :=
| SysExit (status : Z)      (* sys.exit(exit_status) *)
| Reraise.                  (* raise *)

(** The keys [dir] and [from_dir] of the logged [info], and the outcome. *)
Record FailureReport : Type := mkFailureReport {
  info_dir : option string;
  info_from_dir : option string;
  outcome : Outcome
}.

(** The [except Exception as exn] block of [runner] around [runtime.run];
    [rundir] is [None] on entry. *)
Definition runner_failure (exn : EngineExn) (debug : bool) : FailureReport :=
  let '(rundir, from_rundir, cause) := unwrap_run_failed exn None None in
  let exit_status := failure_exit_status cause in
  {| info_dir := if truthy_ostr rundir then rundir else None;
     info_from_dir :=
       if truthy_ostr from_rundir && bool_decide (from_rundir ≠ rundir)
       then from_rundir else None;
     outcome :=
       match cause with
       | Some EngineAssertionError => Reraise
       | _ => if debug then Reraise else SysExit exit_status
       end |}.

(** ** Outline/Lint Reporter: the exit code of [check] *)

(** Modelled from the spec: [Lint.LintSeverity] (Lint.py is not part of
    CLI.py) is an ordered enumeration; the command-line help names its levels
    MINOR, MODERATE, MAJOR, CRITICAL in rising order. *)
Inductive LintSeverity : Type := MINOR | MODERATE | MAJOR | CRITICAL.

(** [severity.value] *)
Definition severity_value (s : LintSeverity) : Z :=
  match s with
  | MINOR => 1
  | MODERATE => 2
  | MAJOR => 3
  | CRITICAL => 4
  end.

(** [severity.name] *)
Definition severity_name (s : LintSeverity) : string :=
  match s with
  | MINOR => "MINOR"
  | MODERATE => "MODERATE"
  | MAJOR => "MAJOR"
  | CRITICAL => "CRITICAL"
  end.

(** [c.upper()] on ASCII *)
Definition upper_ascii (c : ascii) : ascii :=
  let n := nat_of_ascii c in
  if ((97 <=? n) && (n <=? 122))%nat then ascii_of_nat (n - 32) else c.

Fixpoint upper (s : string) : string :=
  match s with
  | EmptyString => EmptyString
  | String c s' => String (upper_ascii c) (upper s')
  end.

(** [getattr(LintSeverity, name)], [None] for [AttributeError]. *)
Definition severity_of_name (name : string) : option LintSeverity :=
  if String.eqb name "MINOR" then Some MINOR
  else if String.eqb name "MODERATE" then Some MODERATE
  else if String.eqb name "MAJOR" then Some MAJOR
  else if String.eqb name "CRITICAL" then Some CRITICAL
  else None.

(** A source position [(uri, abspath, line, column, end_line, end_column)],
    compared as the tuple it is. *)
Record SourcePosition : Type := mkPos {
  uri : string;
  abspath : string;
  line : nat;
  column : nat;
  end_line : nat;
  end_column : nat
}.

Definition pos_ltb (a b : SourcePosition) : bool :=
  String.ltb (uri a) (uri b) ||
  String.eqb (uri a) (uri b) &&
  (String.ltb (abspath a) (abspath b) ||
   String.eqb (abspath a) (abspath b) &&
   ((line a <? line b) ||
    (line a =? line b) &&
    ((column a <? column b) ||
     (column a =? column b) &&
     ((end_line a <? end_line b) ||
      (end_line a =? end_line b) && (end_column a <? end_column b)))))%nat.

(** A lint finding [(pos, cls, msg, suppressed, severity)]. *)
Record Finding : Type := mkFinding {
  pos : SourcePosition;
  cls : string;
  msg : string;
  suppressed : bool;
  severity : option LintSeverity
}.

(** [sorted(obj.lint, key=lambda t: t[0])]: a stable sort by position.  A
    finding is put before the findings that come after it in the list unless
    their position is strictly smaller, so findings with equal positions
    keep their order. *)
Fixpoint insert_by_pos (f : Finding) (l : list Finding) : list Finding :=
  match l with
  | [] => [f]
  | g :: l' => if pos_ltb (pos g) (pos f) then g :: insert_by_pos f l'
               else f :: l
  end.

Definition sorted_by_pos (l : list Finding) : list Finding :=
  foldr insert_by_pos [] l.

(** A node of the document tree as [outline] walks it: its [lint] attribute
    when it has one, and the nodes handed to [descend], in that order. *)
Inductive Node : Type :=
| mkNode (lint : option (list Finding)) (children : list Node).

(** The shared mutable arguments [shown] and [exit_code_info]. *)
Record LintState : Type := mkLintState {
  shown : nat;
  should_exit : bool;
  info_severity : option string;
  info_reason : option string
}.

(** [not (suppress and str(cls) in suppress) and (show_all or not suppressed)]:
    the finding is printed and counted. *)
Definition emitted (suppress : gset string) (show_all : bool) (f : Finding)
  : bool :=
  negb (negb (bool_decide (suppress = ∅)) && bool_decide (cls f ∈ suppress))
  && (show_all || negb (suppressed f)).

(** [exit_severity_level and severity
     and severity.value >= exit_severity_level.value and not suppressed
     and exit_code_info]; enumeration members and the dictionary are
    truthy. *)
Definition triggers_exit (exit_severity_level : option LintSeverity)
  (f : Finding) : bool :=
  match exit_severity_level, severity f with
  | Some lvl, Some sev =>
      (severity_value lvl <=? severity_value sev)%Z && negb (suppressed f)
  | _, _ => false
  end.

(** The body of the loop over the sorted findings of one node. *)
Definition show_finding (suppress : gset string) (show_all : bool)
  (exit_on_severity : option string) (st : LintState) (f : Finding)
  : LintState :=
  let exit_severity_level : option LintSeverity :=
    exit_on_severity ≫= (severity_of_name ∘ upper) in
  if emitted suppress show_all f then
    let st' := {| shown := S (shown st); should_exit := should_exit st;
                  info_severity := info_severity st;
                  info_reason := info_reason st |} in
    if triggers_exit exit_severity_level f then
      {| shown := shown st'; should_exit := true;
         info_severity := upper <$> exit_on_severity;
         info_reason :=
           Some ("Found " +:+ cls f +:+ " with severity "
                 +:+ from_option severity_name "" (severity f)) |}
    else st'
  else st.

(** [outline(obj, level, ...)] as far as it updates [shown] and
    [exit_code_info]: the node's own findings are shown once, before the
    first descent, then each child is outlined. *)
Fixpoint outline (suppress : gset string) (show_all : bool)
  (exit_on_severity : option string) (obj : Node) (st : LintState)
  : LintState :=
  match obj with
  | mkNode lint children =>
      let st1 :=
        match lint with
        | Some findings =>
            fold_left (show_finding suppress show_all exit_on_severity)
                      (sorted_by_pos findings) st
        | None => st
        end in
      fold_left (fun s dobj => outline suppress show_all exit_on_severity dobj s)
                children st1
  end.

(** [_determine_exit_code(strict, lint_count, exit_on_severity,
    exit_code_info)] *)
Definition _determine_exit_code (strict : bool) (lint_count : nat)
  (exit_on_severity : option string) (exit_code_info : LintState) : Z :=
  if strict && (0 <? lint_count)%nat then 2%Z
  else if should_exit exit_code_info then 2%Z
  else 0%Z.

(** The early validation of the threshold in [check]: a name that is not a
    severity level is ignored. *)
Definition effective_exit_on_severity (exit_on_lint_severity configured
  : option string) : option string :=
  let eff := if truthy_ostr exit_on_lint_severity then exit_on_lint_severity
             else configured in
  if truthy_ostr eff then
    match eff ≫= (severity_of_name ∘ upper) with
    | Some _ => eff
    | None => None
    end
  else eff.

(** The exit code of [check]: every loaded document is outlined with the
    same [shown] and [exit_code_info], then the exit code is determined.
    [configured] is what the configuration gives for the threshold when the
    command line gives none. *)
Definition check_exit_code (strict show_all : bool) (suppress : gset string)
  (exit_on_lint_severity configured : option string) (docs : list Node) : Z :=
  let eff := effective_exit_on_severity exit_on_lint_severity configured in
  let st0 := {| shown := 0; should_exit := false;
                info_severity := None; info_reason := None |} in
  let st := fold_left (fun s doc => outline suppress show_all eff doc s)
                      docs st0 in
  _determine_exit_code strict (shown st) eff st.

(** * Notions used to state the properties *)

(** A file symlink that is broken, has an absolute target, or resolves
    outside [path]. *)
Definition bad_symlink (fs : FileSystem) (path fn : string) : Prop :=
  os_path_islink fs fn = true
  ∧ (os_path_exists fs fn = false
     ∨ os_path_isabs (os_readlink fs fn) = true
     ∨ path_really_within fs fn path = false).


(** Along the loop over command-line tokens the JSON-origin set only shrinks
    and bound names stay bound. *)
Definition progresses {PyFloat : Type}
  (st st' : list (string * Value PyFloat) * gset string) : Prop :=
  st'.2 ⊆ st.2
  ∧ forall name, is_Some (env_get name st.1) -> is_Some (env_get name st'.1).

(** The [run_dir] of each [RunFailed] layer of a cause chain, outermost
    first. *)
Fixpoint run_dirs (exn : EngineExn) : list (option string) :=
  match exn with
  | RunFailed run_dir cause =>
      run_dir :: match cause with
                 | Some c => run_dirs c
                 | None => []
                 end
  | _ => []
  end.

(** The innermost cause: what lies beneath the [RunFailed] layers, [None]
    when the innermost layer has no cause. *)
Fixpoint root_cause (exn : EngineExn) : option EngineExn :=
  match exn with
  | RunFailed _ cause =>
      match cause with
      | Some c => root_cause c
      | None => None
      end
  | _ => Some exn
  end.

(** The first run directory that is present (neither [None] nor empty). *)
Fixpoint first_present (dirs : list (option string)) : option string :=
  match dirs with
  | [] => None
  | d :: rest => if truthy_ostr d then d else first_present rest
  end.

(** The exit status as the specification words it: that of the innermost
    cause when it is a failed external command, 2 otherwise. *)
Definition claimed_exit_status (exn : EngineExn) : Z :=
  match root_cause exn with
  | Some (CommandFailed st) => default 0%Z st
  | _ => 2%Z
  end.

(** Every finding attached to a node of the tree, in outline order. *)
Fixpoint all_findings (obj : Node) : list Finding :=
  match obj with
  | mkNode lint children =>
      default [] lint ++ List.flat_map all_findings children
  end.

(** The severity level that a threshold name stands for. *)
Definition threshold_level (exit_on_severity : option string)
  : option LintSeverity :=
  exit_on_severity ≫= (severity_of_name ∘ upper).

(** What showing the findings [l] leaves in the state: [shown] is positive
    when it was, or some finding of [l] was emitted; the flag is set when it
    was, or an emitted finding of [l] met the threshold. *)
Definition accounts_for (suppress : gset string) (show_all : bool)
  (exit_on_severity : option string) (l : list Finding)
  (st st' : LintState) : Prop :=
  ((0 < shown st')%nat <->
   (0 < shown st)%nat
   ∨ exists f, f ∈ l ∧ emitted suppress show_all f = true)
  ∧ (should_exit st' = true <->
     should_exit st = true
     ∨ exists f, f ∈ l ∧ emitted suppress show_all f = true
                 ∧ triggers_exit (threshold_level exit_on_severity) f = true).

(** * Example data *)

(** A task [t] with inputs [Int x], [Array[String] names], [Int? opt] and
    [Array[Int]+ some]; only [x] and [some] are required. *)
Definition demo_task : Exe :=
  {| exe_name := "t";
     available_inputs :=
       [("x", mkDecl "x" (TInt false));
        ("names", mkDecl "names" (TArray (TString false) false false));
        ("opt", mkDecl "opt" (TInt true));
        ("some", mkDecl "some" (TArray (TInt false) false true))];
     required_inputs :=
       [("x", mkDecl "x" (TInt false));
        ("some", mkDecl "some" (TArray (TInt false) false true))] |}.

Definition demo_workflow : Exe :=
  {| exe_name := "w"; available_inputs := []; required_inputs := [] |}.

(** A document with the workflow [w] and the task [t], and one with the
    task alone. *)
Definition demo_doc : Document :=
  {| workflow := Some demo_workflow; tasks := [demo_task] |}.

Definition demo_task_doc : Document :=
  {| workflow := None; tasks := [demo_task] |}.

(** Stand-ins for the library calls: no text is a float or decodes as
    JSON, and array types always coerce. *)
Definition no_float (s : string) : option unit := None.
Definition no_json (s : string) : unit + string := inr "Expecting value".
Definition no_from_json (ty : Ty) (j : unit) : Result (Value unit) :=
  Raise (InputError "unreachable").
Definition any_coerces (v existing : Value unit) : bool := true.

(** A filesystem holding the directory [/data/in] with one file name,
    [link], that is a broken symlink; every path is within every root that
    is a prefix of it. *)
Definition demo_fs : FileSystem :=
  {| os_path_isdir := fun p => String.eqb p "/data/in";
     os_path_isfile := fun p => false;
     os_path_abspath := fun p => p;
     os_path_expanduser := fun p => p;
     path_really_within := fun p root => String.prefix root p;
     os_walk := fun p => if String.eqb p "/data/in"
                         then [WalkYield "/data/in" [] ["link"]] else [];
     os_path_islink := fun p => String.eqb p "/data/in/link";
     os_path_exists := fun p => String.eqb p "/data/in";
     os_readlink := fun p => "gone" |}.

(** The predicate that accepts [s3://] URIs as downloadable. *)
Definition demo_downloadable : option (string -> bool -> bool) :=
  Some (fun uri directory => String.prefix "s3://" uri).

(** A run that failed in a nested call whose command exited with status 0
    (a status the task does not accept). *)
Definition demo_failure : EngineExn :=
  RunFailed (Some "/runs/1")
    (Some (RunFailed (Some "/runs/1/call-t") (Some (CommandFailed (Some 0%Z))))).

(** The same with exit status 3. *)
Definition demo_failure3 : EngineExn :=
  RunFailed (Some "/runs/1")
    (Some (RunFailed (Some "/runs/1/call-t") (Some (CommandFailed (Some 3%Z))))).

(** A document whose only lint finding is a suppressed MODERATE one. *)
Definition suppressed_moderate : Finding :=
  {| pos := mkPos "t.wdl" "/work/t.wdl" 3 5 3 20; cls := "UnusedDeclaration";
     msg := "nothing references Int y";
     suppressed := true; severity := Some MODERATE |}.

Definition suppressed_moderate_doc : Node :=
  mkNode (Some []) [mkNode (Some [suppressed_moderate]) []].

(** * Further functions of CLI.py *)

(** ** String slices *)

(** [s[:n]] *)
Fixpoint str_take (n : nat) (s : string) : string :=
  match n, s with
  | S n', String c s' => String c (str_take n' s')
  | _, _ => EmptyString
  end.

(** [s[n:]] *)
Fixpoint str_drop (n : nat) (s : string) : string :=
  match n, s with
  | S n', String _ s' => str_drop n' s'
  | _, _ => s
  end.

(** ** Environment overrides ([--env]) *)

(** [item[: sep if sep >= 0 else len(item)]] *)
Definition env_item_name (item : string) : string :=
  str_take (default (String.length item) (str_find "=" item)) item.

(** [None], or [item[sep + 1 :]] when the item has an [=]. *)
Definition env_item_value (item : string) : option string :=
  (fun sep => str_drop (sep + 1) item) <$> str_find "=" item.

(** The body of [for item in args] in [runner_env_override]; the dictionary
    maps a variable name to its value or to [None]. *)
Definition env_override_step (env_override : gmap string (option string))
  (item : string) : Result (gmap string (option string)) :=
  if bool_decide (str_find "=" item = Some 0%nat) then
    Raise (InputError ("invalid --env argument: " ++ item))
  else Ok (<[env_item_name item := env_item_value item]> env_override).

(** [runner_env_override(cfg, args)], with [configured] standing for
    [cfg["task_runtime"].get_dict("env")]. *)
Definition runner_env_override (configured : gmap string (option string))
  (args : list string) : Result (gmap string (option string)) :=
  for_each env_override_step configured args.

(** ** Completion of input names *)

(** The last statements of [runner_input_completer]: the names offered for
    [prefix], given the resolved target. *)
Definition completed_input_names (target : Exe) (prefix : string)
  : list string :=
  let completed :=
    (fun nm => nm +:+ "=") <$> dict_keys (required_inputs target).*1 in
  if truthy_str prefix && bool_decide (str_find "=" prefix = None) then
    match filter (fun nm => String.prefix prefix nm = true) completed with
    | [] =>
        (fun nm => nm +:+ "=")
          <$> filter (fun nm => String.prefix prefix nm = true)
                     (dict_keys (available_inputs target).*1)
    | matching => matching
    end
  else completed.

(** * Notions used to state the further properties *)

(** The name that a command-line token addresses, when it has one. *)
Definition token_name (one_input : string) : option string :=
  fst <$> parse_name_value one_input.

(** The text of all tokens, run together. *)
Definition tokens_text (inputs : list string) : string :=
  foldr String.append "" inputs.

(** The scalar-like item types that the command line wraps into an
    array. *)
Definition wrappable_item (item : Ty) : bool :=
  match item with
  | TString _ | TFile _ | TDirectory _ | TInt _ | TFloat _ => true
  | _ => false
  end.

(** The number of findings that [outline] prints. *)
Definition count_emitted (suppress : gset string) (show_all : bool)
  (l : list Finding) : nat :=
  List.length (List.filter (emitted suppress show_all) l).

(** A walk item that the symlink check lets pass under [path]: a yielded
    directory none of whose file names is a bad symlink. *)
Definition clean_walk_item (fs : FileSystem) (path : string)
  (item : WalkItem) : Prop :=
  match item with
  | WalkYield wroot _ files =>
      forall fn, fn ∈ files -> ¬ bad_symlink fs path (os_path_join wroot fn)
  | WalkOSError => False
  end.

(** The types whose command-line text is decoded as JSON. *)
Definition is_json_type (ty : Ty) : bool :=
  match ty with
  | TPair _ _ _ | TMap _ _ _ | TStructInstance _ _ => true
  | _ => false
  end.

(** The type that decides how the text is read: the item type of an array,
    the type itself otherwise. *)
Definition read_as (ty : Ty) : Ty :=
  match ty with
  | TArray item _ _ => item
  | _ => ty
  end.

(** The exit code of [check] read off the findings themselves: 2 when
    strict mode meets an emitted finding or an emitted finding meets the
    threshold [level], 0 otherwise. *)
Definition exit_code_of_findings (strict show_all : bool)
  (suppress : gset string) (level : option LintSeverity)
  (findings : list Finding) : Z :=
  if strict && existsb (emitted suppress show_all) findings then 2%Z
  else if existsb (fun f => emitted suppress show_all f
                            && triggers_exit level f) findings
       then 2%Z
       else 0%Z.

(** * Further example data *)

(** A task whose available inputs include the [_runtime] declaration that
    runtime overrides resolve to. *)
Definition demo_runtime_task : Exe :=
  {| exe_name := "t";
     available_inputs :=
       [("x", mkDecl "x" (TInt false));
        ("_runtime", mkDecl "_runtime" (TAny false))];
     required_inputs := [("x", mkDecl "x" (TInt false))] |}.

(** A filesystem holding the regular file [/data/reads.fq] and the
    directory [/data/ref] with the two plain files [a] and [b]. *)
Definition demo_plain_fs : FileSystem :=
  {| os_path_isdir := fun p => String.eqb p "/data/ref";
     os_path_isfile := fun p => String.eqb p "/data/reads.fq";
     os_path_abspath := fun p => p;
     os_path_expanduser := fun p => p;
     path_really_within := fun p root => String.prefix root p;
     os_walk := fun p => if String.eqb p "/data/ref"
                         then [WalkYield "/data/ref" [] ["a"; "b"]] else [];
     os_path_islink := fun p => false;
     os_path_exists := fun p => true;
     os_readlink := fun p => p |}.

(** One shown MAJOR finding and one of class [StringCoercion]. *)
Definition major_finding : Finding :=
  {| pos := mkPos "t.wdl" "/work/t.wdl" 7 3 7 9; cls := "UnusedImport"; msg := "unused import";
     suppressed := false; severity := Some MAJOR |}.

Definition minor_finding : Finding :=
  {| pos := mkPos "t.wdl" "/work/t.wdl" 2 1 2 4; cls := "StringCoercion"; msg := "coercion";
     suppressed := false; severity := Some MINOR |}.

(** The same two findings attached in two ways: to one task, and to a
    workflow and a task of another document. *)
Definition findings_doc_a : Node :=
  mkNode None [mkNode (Some [major_finding; minor_finding]) []].

Definition findings_doc_b : Node :=
  mkNode (Some [minor_finding]) [mkNode None [mkNode (Some [major_finding]) []]].

(** * Where a binding comes from *)

(** The sources that can have bound a name before the command-line tokens
    are read. *)
Inductive Origin : Type := FromJSON | FromEmpty | FromNone.

(** The origin of the binding that a name has once the JSON source, --empty
    and --none have been applied in this order: the last of them to bind
    it. *)
Definition binding_origin {PyFloat : Type}
  (json_env : list (string * Value PyFloat)) (empty none : list string)
  (name : string) : option Origin :=
  if bool_decide (name ∈ none) then Some FromNone
  else if bool_decide (name ∈ empty) then Some FromEmpty
  else if bool_decide (is_Some (env_get name json_env)) then Some FromJSON
  else None.
(** * Properties *)

(** ** Target Resolver *)

Lemma find_task_Some (name : string) (ts : list Exe) (t : Exe) :
  find_task name ts = Some t -> t ∈ ts ∧ exe_name t = name.
Proof.
  induction ts as [|u ts IH]; simpl; [done|].
  destruct (String.eqb_spec (exe_name u) name) as [Heq|Hne].
  - intros [= ->]. split; [left | done].
  - intros Hf. destruct (IH Hf) as [Hin Hn]. split; [by right | done].
Qed.

Lemma find_task_None (name : string) (ts : list Exe) :
  find_task name ts = None <-> (forall t, t ∈ ts -> exe_name t ≠ name).
Proof.
  induction ts as [|u ts IH]; simpl.
  - split; [intros _ t Ht; inversion Ht | done].
  - destruct (String.eqb_spec (exe_name u) name) as [Heq|Hne].
    + split; [done|]. intros H. destruct (H u); [left | done].
    + rewrite IH. split.
      * intros H t Ht. inversion Ht; subst; auto.
      * intros H t Ht. apply H. by right.
Qed.

Lemma truthy_ostr_Some (o : option string) :
  truthy_ostr o = true <-> exists name, o = Some name ∧ name ≠ "".
Proof.
  destruct o as [[|c s]|]; simpl; split; try done.
  - intros (name & [= <-] & Hne). done.
  - intros _. by eexists.
  - intros (name & [=] & _).
Qed.

(** C2: [runner_exe] is total and follows a strict priority order.  It
    always returns a target or raises an Input error.  (1) With a task name
    given (a non-empty string, the condition [if task_name:]), it selects a
    task of exactly that name when the document has one and fails with "no
    such task" otherwise; (2) else a workflow, when present, is selected
    whatever the tasks are; (3) else the lone task; (4) else, with several
    tasks, it fails asking for --task; (5) else it fails with "Empty WDL
    document". *)
Theorem runner_exe_priority (doc : Document) (task_name : option string) :
  ((exists target, runner_exe doc task_name = Ok target) ∨
   (exists m, runner_exe doc task_name = Raise (InputError m)))
  ∧ (forall name, task_name = Some name -> name ≠ "" ->
       ((exists t, t ∈ tasks doc ∧ exe_name t = name) ->
        exists t, runner_exe doc task_name = Ok (TargetTask t)
                  ∧ t ∈ tasks doc ∧ exe_name t = name)
       ∧ ((forall t, t ∈ tasks doc -> exe_name t ≠ name) ->
          runner_exe doc task_name
          = Raise (InputError ("no such task " ++ name ++ " in document"))))
  ∧ (truthy_ostr task_name = false ->
       (forall w, workflow doc = Some w ->
          runner_exe doc task_name = Ok (TargetWorkflow w))
       ∧ (workflow doc = None ->
            (forall t, tasks doc = [t] ->
               runner_exe doc task_name = Ok (TargetTask t))
            ∧ ((1 < List.length (tasks doc))%nat ->
               runner_exe doc task_name
               = Raise (InputError
                   "specify --task for WDL document with multiple tasks and no workflow"))
            ∧ (tasks doc = [] ->
               runner_exe doc task_name
               = Raise (InputError "Empty WDL document")))).
Proof.
  split; [|split].
  - unfold runner_exe. destruct (truthy_ostr task_name).
    + destruct (find_task _ _); eauto.
    + destruct (workflow doc); [eauto|].
      destruct (tasks doc) as [|t [|u ts]]; simpl; eauto.
  - intros name -> Hne. unfold runner_exe.
    assert (truthy_ostr (Some name) = true) as ->
      by (apply truthy_ostr_Some; eauto).
    simpl. split.
    + intros (t & Hin & Hname).
      destruct (find_task name (tasks doc)) as [u|] eqn:Hf.
      * exists u. by destruct (find_task_Some _ _ _ Hf).
      * rewrite find_task_None in Hf. by destruct (Hf t Hin).
    + intros Hnone. apply find_task_None in Hnone. by rewrite Hnone.
  - intros Hfalsy. unfold runner_exe. rewrite Hfalsy. split.
    + by intros w ->.
    + intros ->. split; [|split].
      * by intros t ->.
      * intros Hlen. destruct (tasks doc) as [|t [|u ts]]; simpl in *;
          [lia | lia | done].
      * by intros ->.
Qed.

(** ** Path Validator *)

Lemma unusable_symlink_bad (fs : FileSystem) (path fn : string) :
  (unusable_symlink fs fn path).2 = true <-> bad_symlink fs path fn.
Proof.
  unfold unusable_symlink, bad_symlink.
  destruct (os_path_islink fs fn), (os_path_exists fs fn),
    (os_path_isabs (os_readlink fs fn)), (path_really_within fs fn path);
    simpl; intuition discriminate.
Qed.

Lemma check_files_bad (fs : FileSystem) (root path : string)
  (files : list string) (fn : string) :
  fn ∈ files -> bad_symlink fs path (os_path_join root fn) ->
  (check_files fs root path files).2 = true.
Proof.
  intros Hin Hbad. induction files as [|g files IH]; [inversion Hin|].
  simpl. destruct (unusable_symlink fs (os_path_join root g) path)
    as [ops bad] eqn:Hu.
  destruct bad; [done|].
  destruct (check_files fs root path files) as [ops' bad'] eqn:Hc. simpl.
  inversion Hin; subst.
  - apply unusable_symlink_bad in Hbad. rewrite Hu in Hbad. done.
  - by apply IH.
Qed.

Lemma walk_check_bad (fs : FileSystem) (path : string)
  (pre post : list WalkItem) (root : string) (subdirs files : list string)
  (fn : string) :
  WalkOSError ∉ pre -> fn ∈ files ->
  bad_symlink fs path (os_path_join root fn) ->
  (walk_check fs path (pre ++ WalkYield root subdirs files :: post)).2
  = Raise (InputError ("Input Directory contains unusable symlink: " ++ path)).
Proof.
  intros Hpre Hin Hbad. induction pre as [|item pre IH]; simpl.
  - pose proof (check_files_bad fs root path files fn Hin Hbad) as Hc.
    destruct (check_files fs root path files) as [ops bad]. simpl in Hc.
    by subst.
  - destruct item as [r sd fl|]; [|exfalso; apply Hpre; left].
    destruct (check_files fs r path fl) as [ops bad]. destruct bad; [done|].
    destruct (walk_check fs path (pre ++ _)) as [ops' res] eqn:Hw.
    simpl in *. apply IH. intros H. apply Hpre. by right.
Qed.

(** C4: (a) a path that the downloadable predicate accepts is returned
    unchanged, with no query of the local filesystem at all; (b) for a local
    directory input, an Input error is raised whenever a directory yielded
    by the walk lists a file that is a symlink and is broken, has an
    absolute target or lies outside the input directory; (c) a local path
    that is not within the configured root is rejected with an Input
    error. *)
Theorem validate_input_path_safe (fs : FileSystem) (path : string)
  (directory : bool) (downloadable : option (string -> bool -> bool))
  (root : string) :
  (is_downloadable downloadable path directory = true ->
   validate_input_path_ops fs path directory downloadable root = ([], Ok path))
  ∧ (is_downloadable downloadable path directory = false ->
     directory = true ->
     forall pre post wroot subdirs files fn,
       os_walk fs (os_path_abspath fs path)
       = pre ++ WalkYield wroot subdirs files :: post ->
       WalkOSError ∉ pre -> fn ∈ files ->
       bad_symlink fs (os_path_abspath fs path) (os_path_join wroot fn) ->
       is_input_error (validate_input_path fs path directory downloadable root)
       = true
       ∧ (os_path_isdir fs path = true ->
          path_really_within fs (os_path_abspath fs path) root = true ->
          validate_input_path fs path directory downloadable root
          = Raise (InputError ("Input Directory contains unusable symlink: "
                               ++ os_path_abspath fs path))))
  ∧ (is_downloadable downloadable path directory = false ->
     path_really_within fs (os_path_abspath fs path) root = false ->
     is_input_error (validate_input_path fs path directory downloadable root)
     = true).
Proof.
  unfold validate_input_path, validate_input_path_ops.
  split; [|split].
  - by intros ->.
  - intros -> -> pre post wroot subdirs files fn Hwalk Hpre Hin Hbad.
    pose proof (walk_check_bad fs _ pre post wroot subdirs files fn
                  Hpre Hin Hbad) as Hw.
    rewrite <- Hwalk in Hw.
    destruct (os_path_isdir fs path); simpl; [|done].
    destruct (path_really_within fs (os_path_abspath fs path) root);
      simpl; [|done].
    destruct (walk_check fs _ _) as [ops res]. simpl in *. subst res.
    done.
  - intros -> Hout. rewrite Hout.
    destruct directory; simpl.
    + by destruct (os_path_isdir fs path).
    + by destruct (os_path_isfile fs path).
Qed.

(** ** Text and environments *)

Lemma str_app_assoc (a b c : string) : a +:+ (b +:+ c) = (a +:+ b) +:+ c.
Proof.
  induction a as [|x a IH]; [done|].
  change (String x (a +:+ (b +:+ c)) = String x ((a +:+ b) +:+ c)).
  by rewrite IH.
Qed.

Lemma prefix_app (p s : string) : String.prefix p (p +:+ s) = true.
Proof.
  induction p as [|c p IH]; [by destruct s|].
  change (String.prefix (String c p) (String c (p +:+ s)) = true).
  simpl. by destruct (ascii_dec c c).
Qed.

Lemma contains_prefix (sub s : string) :
  String.prefix sub s = true -> contains sub s = true.
Proof. destruct s; simpl; by intros ->. Qed.

Lemma contains_app (sub a b : string) : contains sub (a +:+ sub +:+ b) = true.
Proof.
  induction a as [|c a IH].
  - change ("" +:+ sub +:+ b) with (sub +:+ b).
    apply contains_prefix, prefix_app.
  - change (String c a +:+ sub +:+ b) with (String c (a +:+ sub +:+ b)).
    simpl contains. rewrite IH. apply orb_true_r.
Qed.

Section Environments.
Context {A : Type}.
Implicit Types (env : list (string * A)) (name : string) (a : A).

Lemma env_get_remove_ne env name other :
  other ≠ name -> env_get name (env_remove other env) = env_get name env.
Proof.
  intros Hne. unfold env_remove.
  induction env as [|[n x] env IH]; [done|].
  rewrite filter_cons. simpl. destruct (decide (n ≠ other)) as [Hn|Hn]; simpl.
  - by rewrite IH.
  - apply dec_stable in Hn. subst n.
    destruct (String.eqb_spec other name); [done | apply IH].
Qed.

Lemma env_get_bind env name other a :
  env_get name (env_bind other a env)
  = if String.eqb other name then Some a else env_get name env.
Proof.
  unfold env_bind. simpl.
  destruct (String.eqb_spec other name); [done|].
  by apply env_get_remove_ne.
Qed.

Lemma env_get_bind_eq env name a :
  env_get name (env_bind name a env) = Some a.
Proof. by rewrite env_get_bind, String.eqb_refl. Qed.

Lemma env_get_set env name other a :
  env_get name (env_set other a env)
  = if String.eqb other name then (fun _ => a) <$> env_get name env
    else env_get name env.
Proof.
  induction env as [|[n x] env IH]; simpl; [by destruct (String.eqb _ _)|].
  destruct (String.eqb_spec n other) as [->|Hno]; simpl.
  - by destruct (String.eqb_spec other name).
  - destruct (String.eqb_spec n name) as [->|Hnn].
    + by destruct (String.eqb_spec other name).
    + apply IH.
Qed.

Lemma env_get_Some_elem env name a :
  env_get name env = Some a -> (name, a) ∈ env.
Proof.
  induction env as [|[n x] env IH]; simpl; [done|].
  destruct (String.eqb_spec n name) as [->|Hne].
  - intros [= ->]. left.
  - intros H. right. by apply IH.
Qed.

Lemma env_get_None env name :
  env_get name env = None <-> name ∉ env.*1.
Proof.
  induction env as [|[n x] env IH]; simpl.
  - split; [intros _ H; inversion H | done].
  - destruct (String.eqb_spec n name) as [->|Hne].
    + split; [done|]. intros H. destruct H. left.
    + rewrite IH. rewrite not_elem_of_cons. naive_solver.
Qed.

End Environments.

(** ** Input Merger: --empty and --none *)

(** C6, as the code has it: for a declared parameter named by --empty, a
    nonempty array type is refused with an Input error; an array type that
    may be empty binds a zero-length array and a String type binds the empty
    string; any other type is refused with an Input error, whose message
    carries the hint toward --none when the declared type is optional and is
    the bare refusal when it is not. *)
Theorem empty_step_outcome {PyFloat : Type} (target : Exe)
  (input_env : list (string * Value PyFloat)) (empty_name : string)
  (decl : Decl) :
  env_get empty_name (available_inputs target) = Some decl ->
  match decl_type decl with
  | TArray item _ true =>
      is_input_error (empty_step target input_env empty_name) = true
  | TArray item _ false =>
      exists env', empty_step target input_env empty_name = Ok env'
                   ∧ env_get empty_name env' = Some (VArray item [])
  | TString _ =>
      exists env', empty_step target input_env empty_name = Ok env'
                   ∧ env_get empty_name env' = Some (VString "")
  | ty =>
      exists m, empty_step target input_env empty_name = Raise (InputError m)
                ∧ (ty_optional ty = true -> contains "--none" m = true)
                ∧ (ty_optional ty = false ->
                   m = "Cannot set " +:+ ty_str ty +:+ " " +:+ decl_name decl
                       +:+ " to empty array or string")
  end.
Proof.
  intros Hdecl. unfold empty_step. rewrite Hdecl.
  assert (forall a b : string,
            contains "--none" (a +:+ "; perhaps you want --none " +:+ b) = true)
    as Hhint.
  { intros a b.
    change ("; perhaps you want --none " +:+ b)
      with ("; perhaps you want " +:+ "--none" +:+ (" " +:+ b)).
    rewrite (str_app_assoc a). apply contains_app. }
  destruct (decl_type decl) as
    [o|o|o|o|o|o|item o [|]|l r o|k v o|n o|o|o]; simpl;
    try (eexists; split; [reflexivity|]; split;
         [intros ->; apply Hhint | intros ->; reflexivity]);
    try done.
  - eexists. split; [done|]. apply env_get_bind_eq.
  - eexists. split; [done|]. apply env_get_bind_eq.
Qed.

Lemma for_each_cons {S X} (body : S -> X -> Result S) (st : S) (x : X)
  (xs : list X) :
  for_each body st (x :: xs) = rbind (fun st' => for_each body st' xs) (body st x).
Proof. done. Qed.

Lemma none_step_optional {PyFloat : Type} (target : Exe)
  (input_env : list (string * Value PyFloat)) (none_name : string)
  (decl : Decl) :
  env_get none_name (available_inputs target) = Some decl ->
  ty_optional (decl_type decl) = true ->
  none_step target input_env none_name = Ok (env_bind none_name VNull input_env).
Proof. intros Hdecl Hopt. unfold none_step. by rewrite Hdecl, Hopt. Qed.

Lemma none_loop_binds_null {PyFloat : Type} (target : Exe)
  (none : list string) (input_env : list (string * Value PyFloat)) :
  (forall n, n ∈ none ->
     exists decl, env_get n (available_inputs target) = Some decl
                  ∧ ty_optional (decl_type decl) = true) ->
  exists env', for_each (none_step target) input_env none = Ok env'
               ∧ forall n, n ∈ none ∨ env_get n input_env = Some VNull ->
                           env_get n env' = Some VNull.
Proof.
  revert input_env. induction none as [|m none IH]; intros input_env Hall.
  - exists input_env. split; [done|]. intros n [Hin|Hget]; [inversion Hin|done].
  - destruct (Hall m) as (decl & Hdecl & Hopt); [left|].
    destruct (IH (env_bind m VNull input_env)) as (env' & Hloop & Hnull).
    { intros n Hn. apply Hall. by right. }
    exists env'. split.
    + rewrite for_each_cons, (none_step_optional _ _ _ _ Hdecl Hopt).
      exact Hloop.
    + intros n Hn. apply Hnull. rewrite env_get_bind.
      destruct (String.eqb_spec m n) as [->|Hne]; [by right|].
      destruct Hn as [Hn|Hn]; [|by right].
      inversion Hn; subst; [done | by left].
Qed.

(** C7: for a declared parameter named by --none, a non-optional type is
    refused with an Input error; an optional type binds the null value for
    that name, whatever the environment held for it before; and when every
    name of the --none list is declared with an optional type, the loop
    succeeds and leaves each of them bound to null. *)
Theorem none_step_outcome {PyFloat : Type} (target : Exe) :
  (forall (input_env : list (string * Value PyFloat)) none_name decl,
     env_get none_name (available_inputs target) = Some decl ->
     ty_optional (decl_type decl) = false ->
     none_step target input_env none_name
     = Raise (InputError ("Cannot set non-optional input "
                          +:+ ty_str (decl_type decl) +:+ " "
                          +:+ decl_name decl +:+ " to None")))
  ∧ (forall (input_env : list (string * Value PyFloat)) none_name decl,
       env_get none_name (available_inputs target) = Some decl ->
       ty_optional (decl_type decl) = true ->
       exists env', none_step target input_env none_name = Ok env'
                    ∧ env_get none_name env' = Some VNull)
  ∧ (forall (input_env : list (string * Value PyFloat)) none,
       (forall n, n ∈ none ->
          exists decl, env_get n (available_inputs target) = Some decl
                       ∧ ty_optional (decl_type decl) = true) ->
       exists env', for_each (none_step target) input_env none = Ok env'
                    ∧ forall n, n ∈ none -> env_get n env' = Some VNull).
Proof.
  split; [|split].
  - intros input_env none_name decl Hdecl Hopt.
    unfold none_step. by rewrite Hdecl, Hopt.
  - intros input_env none_name decl Hdecl Hopt.
    rewrite (none_step_optional _ _ _ _ Hdecl Hopt).
    eexists. split; [done|]. apply env_get_bind_eq.
  - intros input_env none Hall.
    destruct (none_loop_binds_null target none input_env Hall)
      as (env' & Hloop & Hnull).
    exists env'. split; [done|]. intros n Hn. apply Hnull. by left.
Qed.

(** ** Input Merger: command-line tokens *)

Section CommandLineTokens.
Context {PyFloat JSON : Type}.
Variable py_float : string -> option PyFloat.
Variable json_loads : string -> JSON + string.
Variable value_from_json : Ty -> JSON -> Result (Value PyFloat).
Variable type_coerces : Value PyFloat -> Value PyFloat -> bool.
Variable fs : FileSystem.
Variable target : Exe.
Variable downloadable : option (string -> bool -> bool).
Variable root : string.

Local Abbreviation coerce s ty :=
  (runner_input_value py_float json_loads value_from_json fs s ty
     downloadable root).
Local Abbreviation step :=
  (cli_step py_float json_loads value_from_json type_coerces fs target
     downloadable root).
Local Abbreviation state := (list (string * Value PyFloat) * gset string)%type.

(** A token that parses, resolves and coerces is handled by
    [insert_value]. *)
Lemma cli_step_resolved (st : state) (one_input name s_value : string)
  (decl : Decl) (v : Value PyFloat) :
  parse_name_value one_input = Some (name, s_value) ->
  find_decl target name = Some decl ->
  coerce s_value (decl_type decl) = Ok v ->
  step st one_input = insert_value type_coerces name v st.
Proof. intros Hp Hd Hv. unfold cli_step. by rewrite Hp, Hd, Hv. Qed.

Lemma progresses_refl (st : state) : progresses st st.
Proof. by split. Qed.

Lemma progresses_trans (st1 st2 st3 : state) :
  progresses st1 st2 -> progresses st2 st3 -> progresses st1 st3.
Proof.
  intros [Hk1 Hb1] [Hk2 Hb2]. split; [set_solver | auto].
Qed.

Lemma insert_value_progresses (name : string) (v : Value PyFloat)
  (st st' : state) :
  insert_value type_coerces name v st = Ok st' -> progresses st st'.
Proof.
  destruct st as [env keys]. unfold insert_value.
  assert (progresses (env, keys) (env_bind name v env, keys ∖ {[name]}))
    as Hbind.
  { split; cbn [fst snd]; [set_solver|]. intros m Hm. rewrite env_get_bind.
    by destruct (String.eqb name m). }
  destruct (env_get name env) as [existing|] eqn:Hex;
    [|by intros [= <-]].
  case_bool_decide; [|by intros [= <-]].
  destruct v; try done. destruct existing; try done.
  destruct (type_coerces _ _); [|done].
  intros [= <-]. split; cbn [fst snd]; [done|].
  intros m Hm. rewrite env_get_set.
  destruct (String.eqb name m); [|done].
  destruct Hm as [x ->]. by eexists.
Qed.

Lemma cli_step_progresses (st st' : state) (one_input : string) :
  step st one_input = Ok st' -> progresses st st'.
Proof.
  unfold cli_step. destruct (parse_name_value one_input) as [[name s]|];
    [|done].
  destruct (find_decl target name) as [decl|]; [|done].
  destruct (coerce s (decl_type decl)) as [v|e]; [|done].
  apply insert_value_progresses.
Qed.

Lemma cli_loop_progresses (inputs : list string) (st st' : state) :
  for_each step st inputs = Ok st' -> progresses st st'.
Proof.
  revert st. induction inputs as [|x inputs IH]; intros st.
  - intros [= <-]. apply progresses_refl.
  - rewrite for_each_cons. destruct (step st x) as [st1|e] eqn:Hx; [|done].
    intros Hrest. eapply progresses_trans.
    + by eapply cli_step_progresses.
    + by apply IH.
Qed.

Lemma insert_value_json (name : string) (v existing : Value PyFloat)
  (input_env : list (string * Value PyFloat)) (json_keys : gset string) :
  env_get name input_env = Some existing -> name ∈ json_keys ->
  insert_value type_coerces name v (input_env, json_keys)
  = Ok (env_bind name v input_env, json_keys ∖ {[name]}).
Proof.
  intros Hex Hin. unfold insert_value. rewrite Hex.
  by rewrite bool_decide_false by (by intros ?).
Qed.

Lemma insert_value_extend (name : string) (item_type new_type : Ty)
  (items new_items : list (Value PyFloat))
  (input_env : list (string * Value PyFloat)) (json_keys : gset string) :
  env_get name input_env = Some (VArray item_type items) ->
  name ∉ json_keys ->
  type_coerces (VArray new_type new_items) (VArray item_type items) = true ->
  insert_value type_coerces name (VArray new_type new_items)
    (input_env, json_keys)
  = Ok (env_set name (VArray item_type (items ++ new_items)) input_env,
        json_keys).
Proof.
  intros Hex Hnin Hco. unfold insert_value. rewrite Hex.
  rewrite bool_decide_true by done. by rewrite Hco.
Qed.

Lemma insert_value_duplicate (name : string) (v existing : Value PyFloat)
  (input_env : list (string * Value PyFloat)) (json_keys : gset string) :
  env_get name input_env = Some existing -> name ∉ json_keys ->
  is_array v = false ->
  insert_value type_coerces name v (input_env, json_keys)
  = Raise (InputError ("non-array input " +:+ name +:+ " duplicated")).
Proof.
  intros Hex Hnin Harr. unfold insert_value. rewrite Hex.
  rewrite bool_decide_true by done. by destruct v.
Qed.

(** An array value arriving for a name that is not of JSON origin and is
    bound to something other than an array trips the assertion. *)
Remark insert_value_assertion (name : string) (new_type : Ty)
  (new_items : list (Value PyFloat)) (existing : Value PyFloat)
  (input_env : list (string * Value PyFloat)) (json_keys : gset string) :
  env_get name input_env = Some existing -> name ∉ json_keys ->
  is_array existing = false ->
  insert_value type_coerces name (VArray new_type new_items)
    (input_env, json_keys)
  = Raise AssertionError.
Proof.
  intros Hex Hnin Harr. unfold insert_value. rewrite Hex.
  rewrite bool_decide_true by done. by destruct existing.
Qed.

Lemma insert_value_keys (name : string) (v : Value PyFloat) (st st' : state) :
  insert_value type_coerces name v st = Ok st' -> st'.2 = st.2 ∖ {[name]}.
Proof.
  destruct st as [env keys]. unfold insert_value.
  destruct (env_get name env) as [existing|]; [|by intros [= <-]].
  case_bool_decide as Hnin; [|by intros [= <-]].
  destruct v; try done. destruct existing; try done.
  destruct (type_coerces _ _); [|done]. intros [= <-]. cbn [snd].
  set_solver.
Qed.

Lemma cli_step_keys (st st' : state) (one_input : string) :
  step st one_input = Ok st' ->
  exists name, token_name one_input = Some name ∧ st'.2 = st.2 ∖ {[name]}.
Proof.
  unfold cli_step, token_name.
  destruct (parse_name_value one_input) as [[name s]|]; [|done].
  destruct (find_decl target name) as [decl|]; [|done].
  destruct (coerce s (decl_type decl)) as [v|e]; [|done].
  intros H. exists name. split; [done|]. by eapply insert_value_keys.
Qed.

(** The JSON-origin set during the loop: the names it started with, less
    the names that the tokens handled so far address. *)
Lemma cli_loop_keys (inputs : list string) (st st' : state) (n : string) :
  for_each step st inputs = Ok st' ->
  n ∈ st'.2 <->
  n ∈ st.2 ∧ forall t, t ∈ inputs -> token_name t ≠ Some n.
Proof.
  revert st. induction inputs as [|x inputs IH]; intros st.
  - intros [= <-]. split; [|by intros [? _]].
    intros Hn. split; [done|]. intros t Ht. inversion Ht.
  - rewrite for_each_cons. destruct (step st x) as [st1|e] eqn:Hx; [|done].
    intros Hrest. rewrite (IH _ Hrest).
    destruct (cli_step_keys _ _ _ Hx) as (name & Hname & ->).
    rewrite elem_of_difference, not_elem_of_singleton. split.
    + intros [[Hn Hne] Hrest']. split; [done|]. intros t Ht.
      apply elem_of_cons in Ht as [->|Ht]; [|by apply Hrest'].
      rewrite Hname. by intros [= ->].
    + intros [Hn Hall]. split; [split; [done|]|].
      * intros ->. apply (Hall x); [left | done].
      * intros t Ht. apply Hall. by right.
Qed.

Lemma coerce_is_array (s : string) (ty : Ty) (v : Value PyFloat) :
  is_json_type ty = false -> coerce s ty = Ok v ->
  is_array v = match ty with TArray _ _ _ => true | _ => false end.
Proof.
  intros Hj. destruct ty as [o|o|o|o|o|o|item o ne|l r o|k w o|n o|o|o];
    try done; simpl; unfold mbind, Result_bind, rbind.
  - by intros [= <-].
  - destruct (validate_input_path _ _ _ _ _); [by intros [= <-] | done].
  - destruct (validate_input_path _ _ _ _ _); [by intros [= <-] | done].
  - destruct (String.eqb _ _); [by intros [= <-]|].
    destruct (String.eqb _ _); [by intros [= <-] | done].
  - destruct (py_int s); [by intros [= <-] | done].
  - destruct (py_float s); [by intros [= <-] | done].
  - destruct item; try done; simpl; unfold mbind, Result_bind, rbind.
    + by intros [= <-].
    + destruct (validate_input_path _ _ _ _ _); [by intros [= <-] | done].
    + destruct (validate_input_path _ _ _ _ _); [by intros [= <-] | done].
    + destruct (py_int s); [by intros [= <-] | done].
    + destruct (py_float s); [by intros [= <-] | done].
  - destruct (py_int s); [by intros [= <-]|].
    destruct (py_float s); by intros [= <-].
Qed.

Lemma insert_value_keeps_array (name other : string) (v : Value PyFloat)
  (st st' : state) :
  insert_value type_coerces other v st = Ok st' ->
  name ∉ st.2 ->
  (exists b, env_get name st.1 = Some b ∧ is_array b = true) ->
  exists b, env_get name st'.1 = Some b ∧ is_array b = true.
Proof.
  destruct st as [env keys]. cbn [fst snd]. intros H Hnin (b & Hb & Harr).
  destruct (String.eqb_spec other name) as [->|Hne].
  - unfold insert_value in H. rewrite Hb in H.
    rewrite bool_decide_true in H by done.
    destruct v; try done. destruct b; try done.
    destruct (type_coerces _ _); [|done]. injection H as <-. cbn [fst].
    rewrite env_get_set, String.eqb_refl, Hb. by eexists.
  - exists b. split; [|done]. rewrite <- Hb.
    unfold insert_value in H.
    assert (env_get name (env_bind other v env) = env_get name env) as Hbind.
    { rewrite env_get_bind. by destruct (String.eqb_spec other name). }
    destruct (env_get other env) as [existing|]; [|by injection H as <-].
    case_bool_decide; [|by injection H as <-].
    destruct v; try done. destruct existing; try done.
    destruct (type_coerces _ _); [|done]. injection H as <-. cbn [fst].
    rewrite env_get_set. by destruct (String.eqb_spec other name).
Qed.

Lemma cli_loop_keeps_array (name : string) (inputs : list string)
  (st st' : state) :
  for_each step st inputs = Ok st' ->
  name ∉ st.2 ->
  (exists b, env_get name st.1 = Some b ∧ is_array b = true) ->
  exists b, env_get name st'.1 = Some b ∧ is_array b = true.
Proof.
  revert st. induction inputs as [|x inputs IH]; intros st.
  - by intros [= <-].
  - rewrite for_each_cons. destruct (step st x) as [st1|e] eqn:Hx; [|done].
    intros Hrest Hnin Harr. apply (IH st1 Hrest).
    + destruct (cli_step_progresses _ _ _ Hx) as [Hkeys _]. set_solver.
    + unfold cli_step in Hx.
      destruct (parse_name_value x) as [[other s]|]; [|done].
      destruct (find_decl target other) as [decl|]; [|done].
      destruct (coerce s (decl_type decl)) as [v|e]; [|done].
      by eapply insert_value_keeps_array.
Qed.

(** C1, as the code has it: a command-line token whose name already has a
    binding, met after the tokens [before] in a loop that started from the
    environment [env2] (the JSON bindings [env0] with --empty and --none
    applied).  The outcome is keyed on the JSON-origin set, and the name is in
    it exactly when the JSON source supplied it and no earlier token
    addressed it, whatever --empty or --none did to its binding.  When it is,
    the coerced value replaces the binding.  When it is not, an array value
    is appended to the existing value, that being an array that it coerces
    to, earlier items first, and a value that is not an array raises the
    Input error "non-array input ... duplicated". *)
Theorem cli_token_on_bound_name (env0 env2 : list (string * Value PyFloat))
  (before : list string) (input_env : list (string * Value PyFloat))
  (json_keys : gset string) (one_input name s_value : string) (decl : Decl)
  (v existing : Value PyFloat) :
  for_each step (env2, list_to_set env0.*1) before
  = Ok (input_env, json_keys) ->
  parse_name_value one_input = Some (name, s_value) ->
  find_decl target name = Some decl ->
  coerce s_value (decl_type decl) = Ok v ->
  env_get name input_env = Some existing ->
  (name ∈ json_keys <->
   name ∈ env0.*1 ∧ forall t, t ∈ before -> token_name t ≠ Some name)
  ∧ (name ∈ json_keys ->
     exists env', step (input_env, json_keys) one_input
                  = Ok (env', json_keys ∖ {[name]})
                  ∧ env_get name env' = Some v
                  ∧ forall other, other ≠ name ->
                                  env_get other env' = env_get other input_env)
  ∧ (name ∉ json_keys ->
     (forall item_type items new_type new_items,
        existing = VArray item_type items -> v = VArray new_type new_items ->
        type_coerces v existing = true ->
        exists env', step (input_env, json_keys) one_input
                     = Ok (env', json_keys)
                     ∧ env_get name env'
                       = Some (VArray item_type (items ++ new_items))
                     ∧ forall other, other ≠ name ->
                         env_get other env' = env_get other input_env)
     ∧ (is_array v = false ->
        step (input_env, json_keys) one_input
        = Raise (InputError ("non-array input " +:+ name +:+ " duplicated")))).
Proof.
  intros Hloop Hp Hd Hv Hex.
  split.
  { rewrite (cli_loop_keys _ _ _ name Hloop). cbn [snd].
    by rewrite elem_of_list_to_set. }
  rewrite (cli_step_resolved _ _ _ _ _ _ Hp Hd Hv).
  split; [|split].
  - intros Hin. rewrite (insert_value_json _ _ _ _ _ Hex Hin).
    eexists. split; [done|]. split; [apply env_get_bind_eq|].
    intros other Hne. rewrite env_get_bind.
    by destruct (String.eqb_spec name other).
  - intros item_type items new_type new_items -> -> Hco.
    rewrite (insert_value_extend _ _ _ _ _ _ _ Hex H Hco).
    eexists. split; [done|]. split.
    + by rewrite env_get_set, String.eqb_refl, Hex.
    + intros other Hne. rewrite env_get_set.
      by destruct (String.eqb_spec name other).
  - intros Harr. by apply (insert_value_duplicate _ _ existing).
Qed.

(** C10: the JSON-origin exemption is consumed on first use.  The first
    command-line token for a name of JSON origin replaces the binding and
    removes the name from the JSON-origin set; after any further tokens that
    the loop accepts, the name is still absent from that set and still bound,
    so a later token for the same name takes the duplicate path and never
    replaces the binding again: a value that is not an array raises
    "non-array input ... duplicated"; an array value (which, for a type not
    decoded as JSON, always meets an array) is appended to the array that is
    bound, so that the name ends bound to the earlier items followed by the
    new ones, with the other bindings and the JSON-origin set unchanged. *)
Theorem json_origin_consumed (input_env : list (string * Value PyFloat))
  (json_keys : gset string) (first name s1 : string) (decl : Decl)
  (v1 existing : Value PyFloat) (between : list string) (st2 : state) :
  parse_name_value first = Some (name, s1) ->
  find_decl target name = Some decl ->
  coerce s1 (decl_type decl) = Ok v1 ->
  env_get name input_env = Some existing ->
  name ∈ json_keys ->
  for_each step (env_bind name v1 input_env, json_keys ∖ {[name]}) between
  = Ok st2 ->
  step (input_env, json_keys) first
  = Ok (env_bind name v1 input_env, json_keys ∖ {[name]})
  ∧ env_get name (env_bind name v1 input_env) = Some v1
  ∧ for_each step (input_env, json_keys) (first :: between) = Ok st2
  ∧ (name ∉ st2.2)
  ∧ exists bound, env_get name st2.1 = Some bound
    ∧ forall later s2 v2,
        parse_name_value later = Some (name, s2) ->
        coerce s2 (decl_type decl) = Ok v2 ->
        (is_array v2 = false ->
         step st2 later
         = Raise (InputError ("non-array input " +:+ name +:+ " duplicated")))
        ∧ (is_array v2 = true -> is_json_type (decl_type decl) = false ->
           is_array bound = true)
        ∧ (forall item_type items new_type new_items,
             bound = VArray item_type items ->
             v2 = VArray new_type new_items ->
             type_coerces v2 bound = true ->
             exists env3,
               step st2 later = Ok (env3, st2.2)
               ∧ env_get name env3
                 = Some (VArray item_type (items ++ new_items))
               ∧ forall other, other ≠ name ->
                   env_get other env3 = env_get other st2.1).
Proof.
  intros Hp Hd Hv1 Hex Hin Hloop.
  assert (step (input_env, json_keys) first
          = Ok (env_bind name v1 input_env, json_keys ∖ {[name]})) as Hfirst.
  { rewrite (cli_step_resolved _ _ _ _ _ _ Hp Hd Hv1).
    by apply (insert_value_json _ _ existing). }
  split; [done|]. split; [apply env_get_bind_eq|].
  split; [by rewrite for_each_cons, Hfirst|].
  destruct (cli_loop_progresses _ _ _ Hloop) as [Hkeys Hbound].
  cbn [fst snd] in Hkeys, Hbound.
  assert (name ∉ st2.2) as Hnin by set_solver.
  split; [done|].
  destruct (Hbound name) as [bound Hb];
    [rewrite env_get_bind_eq; by eexists|].
  exists bound. split; [done|].
  intros later s2 v2 Hp2 Hv2.
  rewrite (cli_step_resolved _ _ _ _ _ _ Hp2 Hd Hv2).
  split; [|split].
  - intros Harr. destruct st2 as [env2 keys2]. cbn [fst snd] in *.
    by apply (insert_value_duplicate _ _ bound).
  - intros Harr Hj.
    assert (is_array v1 = true) as Harr1.
    { rewrite (coerce_is_array _ _ _ Hj Hv1).
      by rewrite <- (coerce_is_array _ _ _ Hj Hv2). }
    destruct (cli_loop_keeps_array name _ _ _ Hloop) as (b & Hb' & Hbarr).
    + cbn [snd]. set_solver.
    + cbn [fst]. exists v1. by rewrite env_get_bind_eq.
    + congruence.
  - intros item_type items new_type new_items -> -> Hco.
    destruct st2 as [env2 keys2]. cbn [fst snd] in *.
    rewrite (insert_value_extend _ _ _ _ _ _ _ Hb Hnin Hco).
    eexists. split; [done|]. split.
    + by rewrite env_get_set, String.eqb_refl, Hb.
    + intros other Hne. rewrite env_get_set.
      by destruct (String.eqb_spec name other).
Qed.

End CommandLineTokens.

(** ** Input Merger: missing required inputs *)



Lemma dict_keys_elem (names : list string) (n : string) :
  n ∈ dict_keys names <-> n ∈ names.
Proof.
  induction names as [|m names IH]; [done|].
  simpl. rewrite !elem_of_cons, list_elem_of_filter, IH.
  destruct (decide (n = m)); naive_solver.
Qed.


Lemma missing_inputs_elem {PyFloat : Type} (target : Exe)
  (input_env : list (string * Value PyFloat)) (n : string) :
  n ∈ missing_inputs target input_env
  <-> n ∈ (required_inputs target).*1 ∧ env_get n input_env = None.
Proof.
  unfold missing_inputs, env_subtract.
  rewrite dict_keys_elem, !list_elem_of_fmap. split.
  - intros ([m d] & -> & Hin). apply list_elem_of_filter in Hin as [Hnone Hin].
    split; [|done]. by exists (m, d).
  - intros [([m d] & -> & Hin) Hnone]. exists (m, d). split; [done|].
    by apply list_elem_of_filter.
Qed.


(** ** Run Orchestrator *)

Lemma last_cons_default {A} (x d : A) (l : list A) :
  default d (last (x :: l)) = default x (last l).
Proof.
  destruct l as [|y l]; [done|].
  change (last (x :: y :: l)) with (last (y :: l)).
  destruct (last (y :: l)) eqn:E; [done|].
  by apply last_None in E.
Qed.

Lemma unwrap_run_failed_chain :
  forall (exn : EngineExn) (rundir from_rundir : option string),
    unwrap_run_failed exn rundir from_rundir
    = (fold_left py_or (run_dirs exn) rundir,
       default from_rundir (last (run_dirs exn)),
       root_cause exn).
Proof.
  fix IH 1. intros [run_dir [c|]| | | |] rundir from_rundir;
    [|reflexivity..].
  simpl unwrap_run_failed. rewrite (IH c). clear IH.
  change (run_dirs (RunFailed run_dir (Some c))) with (run_dir :: run_dirs c).
  by rewrite last_cons_default.
Qed.

Lemma fold_py_or_present (dirs : list (option string)) (rundir : option string) :
  truthy_ostr rundir = true -> fold_left py_or dirs rundir = rundir.
Proof.
  intros Ht. induction dirs as [|d dirs IH]; [done|].
  simpl. unfold py_or at 2. by rewrite Ht.
Qed.

Lemma fold_py_or_first_present (dirs : list (option string))
  (rundir : option string) :
  truthy_ostr rundir = false ->
  (if truthy_ostr (fold_left py_or dirs rundir)
   then fold_left py_or dirs rundir else None)
  = first_present dirs.
Proof.
  revert rundir. induction dirs as [|d dirs IH]; intros rundir Hf.
  - simpl. by rewrite Hf.
  - simpl. unfold py_or at 2 4. rewrite Hf.
    destruct (truthy_ostr d) eqn:Hd.
    + by rewrite fold_py_or_present, Hd.
    + by apply IH.
Qed.

(** C3, as the code has it: the cause chain is walked from the outermost
    [RunFailed] inwards.  The reported run directory is the first one that
    is present, outermost first.  A "from" directory is reported exactly
    when the innermost layer's run directory is present and differs from the
    reported run directory.  Unless the failure is re-raised (debug mode, or
    an assertion failure as the innermost cause), the process exits with the
    exit status of the innermost cause when that cause is a failed external
    command whose exit status is not zero, and with 2 in every other
    case. *)
Theorem runner_failure_report (exn : EngineExn) (debug : bool) :
  let report := runner_failure exn debug in
  info_dir report = first_present (run_dirs exn)
  ∧ (forall d, info_from_dir report = Some d <->
       last (run_dirs exn) = Some (Some d) ∧ d ≠ ""
       ∧ fold_left py_or (run_dirs exn) None ≠ Some d)
  ∧ (forall d, info_from_dir report = Some d -> info_dir report ≠ Some d)
  ∧ (outcome report = Reraise <->
       debug = true ∨ root_cause exn = Some EngineAssertionError)
  ∧ (debug = false -> root_cause exn ≠ Some EngineAssertionError ->
     (forall st, root_cause exn = Some (CommandFailed (Some st)) -> st ≠ 0%Z ->
        outcome report = SysExit st)
     ∧ ((forall st, root_cause exn = Some (CommandFailed (Some st)) -> st = 0%Z)
        -> outcome report = SysExit 2)).
Proof.
  unfold runner_failure. rewrite unwrap_run_failed_chain.
  cbn zeta.
  split; [by apply fold_py_or_first_present|].
  split; [|split; [|split]].
  - intros d. cbn [info_from_dir].
    destruct (last (run_dirs exn)) as [[[|c s]|]|] eqn:Hl; simpl.
    + split; [done|]. intros ([= <-] & ? & _). done.
    + case_bool_decide as Hne; split.
      * intros [= <-]. repeat split; [done|]. congruence.
      * intros ([= <-] & _ & _). done.
      * done.
      * intros ([= <-] & _ & Hd). destruct Hne. congruence.
    + split; [done|]. intros ([=] & _).
    + split; [done|]. intros ([=] & _).
  - intros d. cbn [info_from_dir info_dir].
    destruct (truthy_ostr (default None (last (run_dirs exn)))) eqn:Hfrom;
      simpl; [|done].
    case_bool_decide as Hne; [|done].
    intros Hd. rewrite Hd in Hne.
    destruct (truthy_ostr (fold_left py_or (run_dirs exn) None)); congruence.
  - cbn [outcome].
    destruct (root_cause exn) as [[]|], debug; simpl; naive_solver.
  - intros -> Hna. cbn [outcome]. split.
    + intros st Hc Hne. rewrite Hc. simpl.
      by destruct (Z.eqb_spec st 0).
    + intros H0. destruct (root_cause exn) as [[r c|[st|]| | |]|]; try done.
      simpl. rewrite (H0 st); done.
Qed.

(** ** Outline/Lint Reporter *)

Lemma Node_children_ind (P : Node -> Prop) :
  (forall lint children, Forall P children -> P (mkNode lint children)) ->
  forall obj, P obj.
Proof.
  intros Hnode. fix IH 1. intros [lint children]. apply Hnode.
  induction children as [|c cs IHcs]; constructor.
  - apply IH.
  - exact IHcs.
Qed.

Lemma insert_by_pos_elem (f g : Finding) (l : list Finding) :
  g ∈ insert_by_pos f l <-> g = f ∨ g ∈ l.
Proof.
  induction l as [|h l IH]; simpl.
  - rewrite list_elem_of_singleton, elem_of_nil. naive_solver.
  - destruct (pos_ltb (pos h) (pos f)).
    + rewrite !elem_of_cons, IH. naive_solver.
    + by rewrite elem_of_cons.
Qed.

Lemma sorted_by_pos_elem (g : Finding) (l : list Finding) :
  g ∈ sorted_by_pos l <-> g ∈ l.
Proof.
  induction l as [|f l IH]; [done|].
  unfold sorted_by_pos in *. simpl.
  by rewrite insert_by_pos_elem, elem_of_cons, IH.
Qed.

Section ShownFindings.
Variable suppress : gset string.
Variable show_all : bool.
Variable exit_on_severity : option string.

Local Abbreviation show := (show_finding suppress show_all exit_on_severity).
Local Abbreviation shows f := (emitted suppress show_all f = true).
Local Abbreviation trips f :=
  (triggers_exit (threshold_level exit_on_severity) f = true).

Local Abbreviation accounts l st st' :=
  (accounts_for suppress show_all exit_on_severity l st st').

Lemma accounts_nil (st : LintState) : accounts [] st st.
Proof.
  split; (split; [by left | intros [?|(f & Hf & _)]; [done | inversion Hf]]).
Qed.

Lemma accounts_app (l1 l2 : list Finding) (st1 st2 st3 : LintState) :
  accounts l1 st1 st2 -> accounts l2 st2 st3 -> accounts (l1 ++ l2) st1 st3.
Proof.
  intros [Hs1 He1] [Hs2 He2]. split.
  - rewrite Hs2, Hs1. setoid_rewrite elem_of_app. naive_solver.
  - rewrite He2, He1. setoid_rewrite elem_of_app. naive_solver.
Qed.

Lemma accounts_same_elements (l l' : list Finding) (st st' : LintState) :
  (forall f, f ∈ l <-> f ∈ l') -> accounts l st st' -> accounts l' st st'.
Proof.
  intros Hl [Hs He]. split.
  - rewrite Hs. by setoid_rewrite Hl.
  - rewrite He. by setoid_rewrite Hl.
Qed.

Lemma show_finding_accounts (st : LintState) (f : Finding) :
  accounts [f] st (show st f).
Proof.
  unfold accounts_for, show_finding. fold (threshold_level exit_on_severity).
  setoid_rewrite list_elem_of_singleton.
  destruct (emitted suppress show_all f) eqn:Hem;
    [destruct (triggers_exit _ f) eqn:Htr|]; simpl.
  all: split; split; intros H.
  all: try lia.
  all: try reflexivity.
  all: try (left; exact H).
  all: try (right; exists f; repeat split; assumption).
  all: destruct H as [H|(g & -> & H)]; try exact H.
  all: lazymatch type of H with
       | _ ∧ _ => destruct H as [H1 H2]; congruence
       | _ => congruence
       end.
Qed.

Lemma show_findings_accounts (l : list Finding) (st : LintState) :
  accounts l st (fold_left show l st).
Proof.
  revert st. induction l as [|f l IH]; intros st; [apply accounts_nil|].
  simpl. change (f :: l) with ([f] ++ l).
  eapply accounts_app; [apply show_finding_accounts | apply IH].
Qed.

Lemma outline_accounts (obj : Node) (st : LintState) :
  accounts (all_findings obj) st
    (outline suppress show_all exit_on_severity obj st).
Proof.
  revert st. induction obj as [lint children IH] using Node_children_ind.
  intros st. simpl. apply accounts_app with
    (st2 := match lint with
            | Some findings => fold_left show (sorted_by_pos findings) st
            | None => st
            end).
  - destruct lint as [findings|]; simpl; [|apply accounts_nil].
    eapply accounts_same_elements; [|apply show_findings_accounts].
    intros f. apply sorted_by_pos_elem.
  - generalize (match lint with
                | Some findings => fold_left show (sorted_by_pos findings) st
                | None => st
                end) as st1.
    induction IH as [|c cs Hc _ IHcs]; intros st1; [apply accounts_nil|].
    simpl. eapply accounts_app; [apply Hc | apply IHcs].
Qed.

Lemma outline_docs_accounts (docs : list Node) (st : LintState) :
  accounts (List.flat_map all_findings docs) st
    (fold_left (fun s doc => outline suppress show_all exit_on_severity doc s)
               docs st).
Proof.
  revert st. induction docs as [|doc docs IH]; intros st;
    [apply accounts_nil|].
  simpl. eapply accounts_app; [apply outline_accounts | apply IH].
Qed.

End ShownFindings.

Lemma triggers_exit_meets (level : option LintSeverity) (f : Finding) :
  triggers_exit level f = true <->
  exists lvl sev, level = Some lvl ∧ severity f = Some sev
                  ∧ (severity_value lvl <= severity_value sev)%Z
                  ∧ suppressed f = false.
Proof.
  unfold triggers_exit. destruct level as [lvl|], (severity f) as [sev|].
  - rewrite andb_true_iff, Z.leb_le, negb_true_iff. split.
    + intros [Hle Hs]. by exists lvl, sev.
    + intros (l & s & [= <-] & [= <-] & Hle & Hs). done.
  - split; [done|]. intros (l & s & _ & [=] & _).
  - split; [done|]. intros (l & s & [=] & _).
  - split; [done|]. intros (l & s & [=] & _).
Qed.

Lemma suppressed_not_triggering (level : option LintSeverity) (f : Finding) :
  suppressed f = true -> triggers_exit level f = false.
Proof.
  intros Hs. unfold triggers_exit.
  destruct level, (severity f); try done. rewrite Hs. apply andb_false_r.
Qed.

(** C9, as the code has it: the exit code of [check] is 0 or 2.  It is
    nonzero exactly when strict mode is on and at least one finding was
    shown, or a shown finding that is not suppressed has a severity at or
    above the threshold.  Hence a document whose findings are all
    suppressed yields exit code 0 under every threshold, MAJOR and MODERATE
    alike, when strict mode is off or suppressed findings are not shown. *)
Theorem check_exit_code_decision (strict show_all : bool)
  (suppress : gset string) (exit_on_lint_severity configured : option string)
  (docs : list Node) :
  let eff := effective_exit_on_severity exit_on_lint_severity configured in
  let findings := List.flat_map all_findings docs in
  let code := check_exit_code strict show_all suppress exit_on_lint_severity
                configured docs in
  (code = 0 ∨ code = 2)%Z
  ∧ (code ≠ 0%Z <->
     (strict = true
      ∧ exists f, f ∈ findings ∧ emitted suppress show_all f = true)
     ∨ (exists f lvl sev,
          f ∈ findings ∧ emitted suppress show_all f = true
          ∧ threshold_level eff = Some lvl ∧ severity f = Some sev
          ∧ (severity_value lvl <= severity_value sev)%Z
          ∧ suppressed f = false))
  ∧ (strict = false ∨ show_all = false ->
     (forall f, f ∈ findings -> suppressed f = true) ->
     code = 0%Z).
Proof.
  intros eff findings code.
  pose proof (outline_docs_accounts suppress show_all eff docs
                {| shown := 0; should_exit := false;
                   info_severity := None; info_reason := None |})
    as [Hshown Hexit].
  fold findings in Hshown, Hexit. cbn [shown should_exit] in Hshown, Hexit.
  unfold code, check_exit_code, _determine_exit_code. fold eff.
  set (st := fold_left _ docs _) in *.
  assert ((0 <? shown st)%nat = true <->
          exists f, f ∈ findings ∧ emitted suppress show_all f = true)
    as Hpos.
  { rewrite Nat.ltb_lt, Hshown. split; [|by right].
    intros [H|H]; [lia | done]. }
  assert (should_exit st = true <->
          exists f lvl sev,
            f ∈ findings ∧ emitted suppress show_all f = true
            ∧ threshold_level eff = Some lvl ∧ severity f = Some sev
            ∧ (severity_value lvl <= severity_value sev)%Z
            ∧ suppressed f = false) as Hflag.
  { rewrite Hexit. split.
    - intros [H|(f & Hin & Hem & Htr)]; [done|].
      apply triggers_exit_meets in Htr as (lvl & sev & ?).
      exists f, lvl, sev. naive_solver.
    - intros (f & lvl & sev & Hin & Hem & Hrest). right.
      exists f. split; [done|]. split; [done|].
      apply triggers_exit_meets. by exists lvl, sev. }
  split; [|split].
  - destruct (strict && (0 <? shown st)%nat), (should_exit st); auto.
  - rewrite <- Hflag, <- Hpos.
    destruct strict, (0 <? shown st)%nat, (should_exit st); simpl;
      split; try done; try (intros _; by auto); intros [[? ?]|?]; done.
  - intros Hoff Hsupp.
    assert (should_exit st = false) as ->.
    { apply not_true_is_false. rewrite Hexit.
      intros [H|(f & Hin & _ & Htr)]; [done|].
      by rewrite (suppressed_not_triggering _ f (Hsupp f Hin)) in Htr. }
    destruct Hoff as [->| ->]; [done|].
    assert ((0 <? shown st)%nat = false) as ->.
    { apply not_true_is_false. rewrite Hpos.
      intros (f & Hin & Hem). unfold emitted in Hem.
      rewrite (Hsupp f Hin) in Hem. simpl in Hem.
      by rewrite andb_false_r in Hem. }
    by rewrite andb_false_r.
Qed.

(** ** Typed Value Coercer *)

(** C8, at the failing input: command-line text that is not a number, given
    for an [Int] input, leaves [runner_input_value] and [runner_input] as the
    [ValueError] of [int()], not as an Input error, while the sibling
    [Boolean] branch does raise an Input error; [Float] behaves as [Int]
    does. *)
Theorem numeric_text_raises_value_error {PyFloat JSON : Type}
  (py_float : string -> option PyFloat) (json_loads : string -> JSON + string)
  (value_from_json : Ty -> JSON -> Result (Value PyFloat))
  (type_coerces : Value PyFloat -> Value PyFloat -> bool) (fs : FileSystem)
  (downloadable : option (string -> bool -> bool)) (root : string) :
  runner_input_value py_float json_loads value_from_json fs "abc"
    (TInt false) downloadable root = Raise ValueError
  ∧ runner_input_value py_float json_loads value_from_json fs "abc"
      (TFloat false) downloadable root
    = match py_float "abc" with
      | Some x => Ok (VFloat x)
      | None => Raise ValueError
      end
  ∧ is_input_error
      (runner_input_value py_float json_loads value_from_json fs "abc"
         (TBoolean false) downloadable root) = true
  ∧ runner_input py_float json_loads value_from_json type_coerces fs
      demo_task_doc ["x=abc"] (Ok []) [] [] None true downloadable root
    = Raise ValueError.
Proof. repeat split; reflexivity. Qed.

(** * Instances on concrete inputs *)

(** The document [demo_doc] has a workflow and a task: without --task the
    workflow is selected, and --task t selects the task. *)
Lemma runner_exe_priority_witness :
  runner_exe demo_doc None = Ok (TargetWorkflow demo_workflow)
  ∧ exists t, runner_exe demo_doc (Some "t") = Ok (TargetTask t)
              ∧ t ∈ tasks demo_doc ∧ exe_name t = "t".
Proof.
  destruct (runner_exe_priority demo_doc None) as (_ & _ & Hnone).
  destruct (runner_exe_priority demo_doc (Some "t")) as (_ & Hsome & _).
  split.
  - apply Hnone; reflexivity.
  - apply (Hsome "t"); [reflexivity | discriminate |].
    exists demo_task. split; [left | reflexivity].
Defined.

(** An [s3://] URI passes without a filesystem query; the directory
    [/data/in] with its broken symlink is refused; and it is refused as well
    under the root [/other]. *)
Lemma validate_input_path_safe_witness :
  validate_input_path_ops demo_fs "s3://bucket/key" false demo_downloadable
    "/data" = ([], Ok "s3://bucket/key")
  ∧ validate_input_path demo_fs "/data/in" true demo_downloadable "/data"
    = Raise (InputError "Input Directory contains unusable symlink: /data/in")
  ∧ is_input_error
      (validate_input_path demo_fs "/data/in" true demo_downloadable "/other")
    = true.
Proof.
  destruct (validate_input_path_safe demo_fs "s3://bucket/key" false
              demo_downloadable "/data") as (Huri & _ & _).
  destruct (validate_input_path_safe demo_fs "/data/in" true
              demo_downloadable "/data") as (_ & Hlink & _).
  destruct (validate_input_path_safe demo_fs "/data/in" true
              demo_downloadable "/other") as (_ & _ & Hroot).
  split; [|split].
  - apply Huri. reflexivity.
  - apply (Hlink eq_refl eq_refl [] [] "/data/in" [] ["link"] "link");
      try reflexivity.
    + intros H. inversion H.
    + left.
    + split; [reflexivity | left; reflexivity].
  - apply Hroot; reflexivity.
Defined.

(** --empty on the inputs of [demo_task]: [names] is bound to a
    zero-length array. *)
Lemma empty_step_outcome_witness :
  exists env', @empty_step unit demo_task [("names", VNull)] "names" = Ok env'
               ∧ env_get "names" env' = Some (VArray (TString false) []).
Proof.
  exact (empty_step_outcome demo_task [("names", VNull)] "names"
           (mkDecl "names" (TArray (TString false) false false)) eq_refl).
Defined.

(** C6 as stated fails: --empty on the non-optional [Int x] raises an Input
    error whose message has no hint toward --none. *)
Lemma empty_step_hint_counterexample :
  ty_optional (TInt false) = false
  ∧ @empty_step unit demo_task [] "x"
    = Raise (InputError "Cannot set Int x to empty array or string")
  ∧ contains "--none" "Cannot set Int x to empty array or string" = false.
Proof. split; [|split]; reflexivity. Qed.

(** --none on [demo_task]: refused for [Int x], binds null for [Int? opt]
    over an earlier value. *)
Lemma none_step_outcome_witness :
  @none_step unit demo_task [] "x"
  = Raise (InputError "Cannot set non-optional input Int x to None")
  ∧ exists env', @none_step unit demo_task [("opt", VInt 7%Z)] "opt" = Ok env'
                 ∧ env_get "opt" env' = Some VNull.
Proof.
  split.
  - exact (proj1 (none_step_outcome demo_task) [] "x"
             (mkDecl "x" (TInt false)) eq_refl eq_refl).
  - exact (proj1 (proj2 (none_step_outcome demo_task)) [("opt", VInt 7%Z)]
             "opt" (mkDecl "opt" (TInt true)) eq_refl eq_refl).
Defined.

(** JSON gave [x = 1]; after [names=a], the token [x=2] finds [x] still of
    JSON origin and replaces it. *)
Lemma cli_token_on_bound_name_witness :
  ("x" ∈ ({["x"]} ∖ {["names"]} : gset string) <->
   "x" ∈ [("x", @VInt unit 1%Z)].*1
   ∧ forall t, t ∈ ["names=a"] -> token_name t ≠ Some "x")
  ∧ exists env',
      cli_step no_float no_json no_from_json any_coerces demo_fs demo_task
        None "/"
        ([("names", VArray (TString false) [VString "a"]); ("x", VInt 1%Z)],
         {["x"]} ∖ {["names"]}) "x=2"
      = Ok (env', {["x"]} ∖ {["names"]} ∖ {["x"]})
      ∧ env_get "x" env' = Some (VInt 2%Z)
      ∧ forall other, other ≠ "x" ->
          env_get other env'
          = env_get other [("names", VArray (TString false) [VString "a"]);
                           ("x", VInt 1%Z)].
Proof.
  destruct (cli_token_on_bound_name no_float no_json no_from_json any_coerces
              demo_fs demo_task None "/" [("x", VInt 1%Z)] [("x", VInt 1%Z)]
              ["names=a"]
              [("names", VArray (TString false) [VString "a"]);
               ("x", VInt 1%Z)]
              ({["x"]} ∖ {["names"]})
              "x=2" "x" "2" (mkDecl "x" (TInt false)) (VInt 2%Z) (VInt 1%Z)
              eq_refl eq_refl eq_refl eq_refl eq_refl)
    as (Horigin & Hreplace & _).
  split; [exact Horigin|]. apply Hreplace. apply Horigin.
  split; [left|]. intros t Ht.
  apply list_elem_of_singleton in Ht as ->. discriminate.
Defined.

(** C1 as stated fails: JSON gives [opt = 3] and --none rebinds [opt] to
    null, so the binding that the token [opt=5] meets does not come from the
    JSON source; the token is not an array, and yet no Input error is
    raised: it replaces the binding. *)
Lemma binding_origin_counterexample :
  binding_origin [("opt", @VInt unit 3%Z)] [] ["opt"] "opt" = Some FromNone
  ∧ for_each (none_step demo_task) [("opt", @VInt unit 3%Z)] ["opt"]
    = Ok [("opt", VNull)]
  ∧ runner_input no_float no_json no_from_json any_coerces demo_fs
      demo_task_doc ["opt=5"] (Ok [("opt", VInt 3%Z)]) [] ["opt"] None false
      None "/"
    = Ok (TargetTask demo_task, [("opt", VInt 5%Z)])
  ∧ is_input_error
      (runner_input no_float no_json no_from_json any_coerces demo_fs
         demo_task_doc ["opt=5"] (Ok [("opt", VInt 3%Z)]) [] ["opt"] None
         false None "/") = false.
Proof. repeat split; reflexivity. Qed.

(** After [x=2] has replaced the JSON value of [x] and [names=a] went by, a
    further [x=3] is a duplicate. *)
Lemma json_origin_consumed_witness :
  cli_step no_float no_json no_from_json any_coerces demo_fs demo_task
    None "/"
    ([("names", VArray (TString false) [VString "a"]); ("x", VInt 2%Z)],
     {["x"]} ∖ {["x"]} ∖ {["names"]}) "x=3"
  = Raise (InputError "non-array input x duplicated").
Proof.
  destruct (json_origin_consumed no_float no_json no_from_json any_coerces
              demo_fs demo_task None "/" [("x", VInt 1%Z)] {["x"]}
              "x=2" "x" "2" (mkDecl "x" (TInt false)) (VInt 2%Z) (VInt 1%Z)
              ["names=a"]
              ([("names", VArray (TString false) [VString "a"]);
                ("x", VInt 2%Z)],
               {["x"]} ∖ {["x"]} ∖ {["names"]}))
    as (_ & _ & _ & _ & bound & _ & Hlater);
    [reflexivity.. | by apply elem_of_singleton | reflexivity |].
  apply (Hlater "x=3" "3" (VInt 3%Z)); reflexivity.
Defined.


(** C3 as stated fails: the innermost cause of [demo_failure] is a failed
    command with exit status 0, and the process exits with 2. *)
Lemma exit_status_counterexample :
  root_cause demo_failure = Some (CommandFailed (Some 0%Z))
  ∧ outcome (runner_failure demo_failure false) = SysExit 2
  ∧ outcome (runner_failure demo_failure false)
    ≠ SysExit (claimed_exit_status demo_failure).
Proof.
  split; [reflexivity|]. split; [reflexivity|].
  intros H. vm_compute in H. discriminate H.
Qed.

(** [demo_failure3]: the outer run directory is reported, the inner one as
    "from", and the command's status 3 is the exit status. *)
Lemma runner_failure_report_witness :
  info_dir (runner_failure demo_failure3 false) = Some "/runs/1"
  ∧ info_from_dir (runner_failure demo_failure3 false) = Some "/runs/1/call-t"
  ∧ outcome (runner_failure demo_failure3 false) = SysExit 3.
Proof.
  destruct (runner_failure_report demo_failure3 false)
    as (Hdir & Hfrom & _ & _ & Hexit).
  split; [exact Hdir|]. split.
  - apply Hfrom. repeat split; done.
  - apply Hexit; [done | done | reflexivity | done].
Defined.

(** C9 as stated fails: with the threshold MODERATE, the document whose only
    finding is a suppressed MODERATE one yields exit code 0, not 2. *)
Lemma suppressed_moderate_counterexample :
  all_findings suppressed_moderate_doc = [suppressed_moderate]
  ∧ check_exit_code false false ∅ (Some "MODERATE") None
      [suppressed_moderate_doc] = 0%Z
  ∧ check_exit_code false false ∅ (Some "MODERATE") None
      [suppressed_moderate_doc] ≠ 2%Z.
Proof.
  split; [reflexivity|]. split; [reflexivity|].
  intros H. vm_compute in H. discriminate H.
Qed.

(** The same document yields exit code 0 under both thresholds. *)
Lemma check_exit_code_decision_witness :
  check_exit_code false false ∅ (Some "MAJOR") None [suppressed_moderate_doc]
  = 0%Z
  ∧ check_exit_code false false ∅ (Some "MODERATE") None
      [suppressed_moderate_doc] = 0%Z.
Proof.
  destruct (check_exit_code_decision false false ∅ (Some "MAJOR") None
              [suppressed_moderate_doc]) as (_ & _ & Hmajor).
  destruct (check_exit_code_decision false false ∅ (Some "MODERATE") None
              [suppressed_moderate_doc]) as (_ & _ & Hmoderate).
  split.
  - apply Hmajor; [by left|].
    intros f Hf. apply list_elem_of_singleton in Hf as ->. reflexivity.
  - apply Hmoderate; [by left|].
    intros f Hf. apply list_elem_of_singleton in Hf as ->. reflexivity.
Defined.

(** ** End-to-end runs of [runner_input] on [demo_task] *)

(** JSON gives [x = 1] and the command line [x=2]: the final [x] is 2. *)
Example command_line_overrides_json :
  runner_input no_float no_json no_from_json any_coerces demo_fs
    demo_task_doc ["x=2"; "some=4"] (Ok [("x", VInt 1%Z)]) [] [] None true
    None "/"
  = Ok (TargetTask demo_task,
        [("some", VArray (TInt false) [VInt 4%Z]); ("x", VInt 2%Z)]).
Proof. reflexivity. Qed.

(** Repeated tokens for an array input are gathered in command-line
    order; [names=] followed by [c] is read as [names=c]. *)
Example repeated_tokens_concatenate :
  runner_input no_float no_json no_from_json any_coerces demo_fs
    demo_task_doc ["names=a"; "names=b"; "names="; "c"] (Ok []) [] [] None
    false None "/"
  = Ok (TargetTask demo_task,
        [("names", VArray (TString false)
                     [VString "a"; VString "b"; VString "c"])]).
Proof. reflexivity. Qed.

(** A second token for a name that is not an array is refused, also when the
    first one had replaced a JSON value. *)
Example repeated_scalar_rejected :
  runner_input no_float no_json no_from_json any_coerces demo_fs
    demo_task_doc ["x=2"; "x=3"] (Ok [("x", VInt 1%Z)]) [] [] None true
    None "/"
  = Raise (InputError "non-array input x duplicated").
Proof. reflexivity. Qed.

(** * Further properties *)

(** ** Splitting and reassembling command-line tokens *)

Lemma str_app_cons (c : ascii) (a b : string) :
  String c a +:+ b = String c (a +:+ b).
Proof. done. Qed.

Lemma str_find_app_none (c : ascii) (a b : string) :
  str_find c a = None -> str_find c (a +:+ String c b) = Some (String.length a).
Proof.
  induction a as [|x a IH]; intros Hnone.
  - change ("" +:+ String c b) with (String c b). simpl.
    by rewrite Ascii.eqb_refl.
  - rewrite str_app_cons. simpl in *. destruct (Ascii.eqb x c); [done|].
    destruct (str_find c a); [done|]. by rewrite IH.
Qed.

Lemma split_once_app (c : ascii) (a b : string) :
  str_find c a = None -> split_once c (a +:+ String c b) = [a; b].
Proof.
  induction a as [|x a IH]; intros Hnone.
  - change ("" +:+ String c b) with (String c b). simpl.
    by rewrite Ascii.eqb_refl.
  - rewrite str_app_cons. simpl in *. destruct (Ascii.eqb x c); [done|].
    destruct (str_find c a); [done|]. by rewrite IH.
Qed.

Lemma split_once_pair (c : ascii) (s a b : string) :
  split_once c s = [a; b] -> s = a +:+ String c b ∧ str_find c a = None.
Proof.
  revert a. induction s as [|x s IH]; intros a; simpl; [done|].
  destruct (Ascii.eqb_spec x c) as [->|Hne].
  - by intros [= <- <-].
  - destruct (split_once c s) as [|a' [|b' [|]]] eqn:E; try done.
    intros [= <- <-]. destruct (IH a' eq_refl) as [-> Hnone].
    split; [done|]. simpl. apply Ascii.eqb_neq in Hne. by rewrite Hne, Hnone.
Qed.

(** X1: a token [name=value] whose name starts with a letter and holds no
    [=] parses to exactly that name and value; the value may itself hold
    [=] signs. *)
Theorem parse_name_value_complete (c : ascii) (rest value : string) :
  isalpha c = true -> str_find "=" (String c rest) = None ->
  parse_name_value (String c rest +:+ "=" +:+ value)
  = Some (String c rest, value).
Proof.
  intros Halpha Hnone. unfold parse_name_value.
  change ("=" +:+ value) with (String "=" value).
  pose proof (split_once_app "=" _ value Hnone) as Hsplit.
  rewrite str_app_cons in Hsplit |- *.
  by rewrite Hsplit, Halpha.
Qed.

(** X2: whatever parses as a name and a value is the text
    [name=value], with a non-empty name that starts with a letter and holds
    no [=]: the split is at the first [=]. *)
Theorem parse_name_value_sound (one_input name s_value : string) :
  parse_name_value one_input = Some (name, s_value) ->
  one_input = name +:+ "=" +:+ s_value
  ∧ str_find "=" name = None
  ∧ exists c rest, name = String c rest ∧ isalpha c = true.
Proof.
  unfold parse_name_value. destruct one_input as [|c s]; [done|].
  destruct (split_once "=" (String c s)) as [|a [|b [|]]] eqn:E; try done.
  destruct (isalpha c) eqn:Halpha; [|done].
  destruct (truthy_str a) eqn:Ha; [|done].
  intros [= <- <-]. destruct (split_once_pair _ _ _ _ E) as [Heq Hnone].
  split; [done|]. split; [done|].
  destruct a as [|c' a']; [done|].
  rewrite str_app_cons in Heq. injection Heq as <- _. by exists c, a'.
Qed.

Lemma merge_adjacent_cons2 (x y : string) (rest : list string) :
  merge_adjacent (x :: y :: rest)
  = if ends_at_equals x then (x +:+ y) :: merge_adjacent rest
    else x :: merge_adjacent (y :: rest).
Proof. done. Qed.

Lemma merge_adjacent_bounded (n : nat) (inputs : list string) :
  (List.length inputs <= n)%nat ->
  tokens_text (merge_adjacent inputs) = tokens_text inputs
  ∧ (List.length (merge_adjacent inputs) <= List.length inputs)%nat.
Proof.
  revert inputs. induction n as [|n IH]; intros inputs Hlen.
  - destruct inputs; [done | simpl in Hlen; lia].
  - destruct inputs as [|x [|y rest]]; [done | done |].
    rewrite merge_adjacent_cons2. destruct (ends_at_equals x).
    + destruct (IH rest) as [Htext Hshort]; [simpl in Hlen; lia|].
      split; [|cbn [List.length]; lia].
      unfold tokens_text in *. cbn [foldr]. rewrite Htext.
      by rewrite str_app_assoc.
    + destruct (IH (y :: rest)) as [Htext Hshort];
        [cbn [List.length] in *; lia|].
      split; [|cbn [List.length] in *; lia].
      unfold tokens_text in *. cbn [foldr] in *. by rewrite Htext.
Qed.

(** X3: the preprocessing of the command-line tokens only moves token
    boundaries: the text of the tokens run together is unchanged, and there
    are never more tokens than before. *)
Theorem merge_adjacent_text (inputs : list string) :
  tokens_text (merge_adjacent inputs) = tokens_text inputs
  ∧ (List.length (merge_adjacent inputs) <= List.length inputs)%nat.
Proof. by apply (merge_adjacent_bounded (List.length inputs)). Qed.

(** X4: when no token but possibly the last ends exactly at its [=], the
    preprocessing leaves the tokens as they are; in particular a trailing
    [name=] is kept and stands for the empty value. *)
Theorem merge_adjacent_clean (inputs : list string) (final : string) :
  Forall (fun x => ends_at_equals x = false) inputs ->
  merge_adjacent (inputs ++ [final]) = inputs ++ [final].
Proof.
  induction 1 as [|x inputs Hx _ IH]; [done|].
  destruct inputs as [|y rest].
  - simpl. by rewrite Hx.
  - change ((x :: y :: rest) ++ [final]) with (x :: y :: (rest ++ [final])).
    rewrite merge_adjacent_cons2, Hx. by rewrite <- IH at 2.
Qed.

(** ** The merged environment *)

Lemma rbind_Ok {A B} (k : A -> Result B) (r : Result A) (b : B) :
  rbind k r = Ok b -> exists a, r = Ok a ∧ k a = Ok b.
Proof. destruct r as [a|e]; [by exists a | done]. Qed.

Section MergedEnvironment.
Context {PyFloat JSON : Type}.
Variable py_float : string -> option PyFloat.
Variable json_loads : string -> JSON + string.
Variable value_from_json : Ty -> JSON -> Result (Value PyFloat).
Variable type_coerces : Value PyFloat -> Value PyFloat -> bool.
Variable fs : FileSystem.
Variable downloadable : option (string -> bool -> bool).
Variable root : string.

Local Abbreviation step target :=
  (cli_step py_float json_loads value_from_json type_coerces fs target
     downloadable root).
Local Abbreviation run doc inputs json_file empty none task check_required :=
  (runner_input py_float json_loads value_from_json type_coerces fs doc inputs
     json_file empty none task check_required downloadable root).

(** The phases of a successful [runner_input]. *)
Lemma runner_input_Ok (doc : Document) (inputs : list string)
  (json_file : Result (list (string * Value PyFloat)))
  (empty none : list string) (task : option string) (check_required : bool)
  (target : Target) (env : list (string * Value PyFloat)) :
  run doc inputs json_file empty none task check_required = Ok (target, env) ->
  exists env0 env1 env2 keys,
    runner_exe doc task = Ok target
    ∧ json_file = Ok env0
    ∧ for_each (empty_step (target_exe target)) env0 empty = Ok env1
    ∧ for_each (none_step (target_exe target)) env1 none = Ok env2
    ∧ for_each (step (target_exe target)) (env2, list_to_set env0.*1)
               (merge_adjacent inputs) = Ok (env, keys)
    ∧ check_missing (target_exe target) check_required env = Ok tt.
Proof.
  unfold runner_input. intros H.
  apply rbind_Ok in H as (target' & Hexe & H).
  apply rbind_Ok in H as (env0 & Hjson & H).
  apply rbind_Ok in H as (env1 & Hempty & H).
  apply rbind_Ok in H as (env2 & Hnone & H).
  apply rbind_Ok in H as ([env' keys] & Hcli & H).
  apply rbind_Ok in H as ([] & Hmissing & H).
  injection H as -> ->. by exists env0, env1, env2, keys.
Qed.

(** X5: when [runner_input] succeeds with the required-inputs check on, the
    target is the one [runner_exe] resolves and every required input of it
    is bound in the returned environment. *)
Theorem runner_input_binds_required (doc : Document) (inputs : list string)
  (json_file : Result (list (string * Value PyFloat)))
  (empty none : list string) (task : option string)
  (target : Target) (env : list (string * Value PyFloat)) :
  run doc inputs json_file empty none task true = Ok (target, env) ->
  runner_exe doc task = Ok target
  ∧ forall n, n ∈ (required_inputs (target_exe target)).*1 ->
              is_Some (env_get n env).
Proof.
  intros H. apply runner_input_Ok in H
    as (env0 & env1 & env2 & keys & Hexe & _ & _ & _ & _ & Hmissing).
  split; [done|]. intros n Hn.
  unfold check_missing in Hmissing.
  destruct (missing_inputs (target_exe target) env) eqn:Hm; [|done].
  destruct (env_get n env) eqn:Hget; [by eexists|].
  assert (n ∈ missing_inputs (target_exe target) env) as Hin
    by by apply missing_inputs_elem.
  rewrite Hm in Hin. inversion Hin.
Qed.

Lemma empty_step_error (target : Exe) (env : list (string * Value PyFloat))
  (name : string) (e : Exn) :
  empty_step target env name = Raise e -> exists m, e = InputError m.
Proof.
  unfold empty_step. destruct (env_get name _) as [decl|];
    [|intros [= <-]; by eexists].
  destruct (decl_type decl) as
    [o|o|o|o|o|o|item o [|]|l r o|k v o|n o|o|o];
    intros [= <-]; by eexists.
Qed.

Lemma none_step_error (target : Exe) (env : list (string * Value PyFloat))
  (name : string) (e : Exn) :
  none_step target env name = Raise e -> exists m, e = InputError m.
Proof.
  unfold none_step. destruct (env_get name _) as [decl|];
    [|intros [= <-]; by eexists].
  destruct (negb _); intros [= <-]. by eexists.
Qed.

(** A loop whose body fails only with Input errors, and always fails on
    one of the items, fails with an Input error. *)
Lemma for_each_input_error {S X} (body : S -> X -> Result S) (xs : list X)
  (x : X) (st : S) :
  (forall st y e, body st y = Raise e -> exists m, e = InputError m) ->
  x ∈ xs -> (forall st, exists e, body st x = Raise e) ->
  exists m, for_each body st xs = Raise (InputError m).
Proof.
  intros Herr Hin Hfail. revert st.
  induction xs as [|y xs IH]; intros st; [inversion Hin|].
  rewrite for_each_cons. destruct (body st y) as [st'|e] eqn:Hy.
  - apply elem_of_cons in Hin as [->|Hin].
    + destruct (Hfail st) as [e He]. congruence.
    + by apply IH.
  - destruct (Herr _ _ _ Hy) as [m ->]. by exists m.
Qed.

Lemma for_each_error_class {S X} (body : S -> X -> Result S) (xs : list X)
  (st : S) (e : Exn) :
  (forall st y e, body st y = Raise e -> exists m, e = InputError m) ->
  for_each body st xs = Raise e -> exists m, e = InputError m.
Proof.
  intros Herr. revert st. induction xs as [|y xs IH]; intros st; [done|].
  rewrite for_each_cons. destruct (body st y) as [st'|e'] eqn:Hy.
  - apply IH.
  - intros [= <-]. by eapply Herr.
Qed.

(** X6: a name given to --empty or to --none that the target does not
    declare makes [runner_input] fail with an Input error, whatever else is
    supplied (once the target is resolved and the JSON source is read). *)
Theorem undeclared_override_rejected (doc : Document) (inputs : list string)
  (env0 : list (string * Value PyFloat)) (empty none : list string)
  (task : option string) (check_required : bool) (target : Target)
  (name : string) :
  runner_exe doc task = Ok target ->
  name ∈ empty ∨ name ∈ none ->
  env_get name (available_inputs (target_exe target)) = None ->
  exists m, run doc inputs (Ok env0) empty none task check_required
            = Raise (InputError m).
Proof.
  intros Hexe Hin Hundeclared. unfold runner_input. rewrite Hexe.
  cbn [mbind Result_bind rbind target_exe].
  destruct Hin as [Hin|Hin].
  - destruct (for_each_input_error (empty_step (target_exe target)) empty
                name env0) as [m Hm].
    + apply empty_step_error.
    + done.
    + intros st. unfold empty_step. rewrite Hundeclared. by eexists.
    + rewrite Hm. by exists m.
  - destruct (for_each (empty_step (target_exe target)) env0 empty)
      as [env1|e] eqn:Hempty.
    + destruct (for_each_input_error (none_step (target_exe target)) none
                  name env1) as [m Hm].
      * apply none_step_error.
      * done.
      * intros st. unfold none_step. rewrite Hundeclared. by eexists.
      * cbn [mbind Result_bind rbind]. rewrite Hm. by exists m.
    + destruct (for_each_error_class _ _ _ _
                  (empty_step_error (target_exe target)) Hempty) as [m ->].
      by exists m.
Qed.

Lemma for_each_invariant {S X} (body : S -> X -> Result S) (I : S -> Prop)
  (xs : list X) (st st' : S) :
  (forall st x st', x ∈ xs -> I st -> body st x = Ok st' -> I st') ->
  I st -> for_each body st xs = Ok st' -> I st'.
Proof.
  revert st. induction xs as [|y xs IH]; intros st Hbody Hst.
  - by intros [= <-].
  - rewrite for_each_cons. intros H.
    apply rbind_Ok in H as (st1 & Hy & Hrest).
    apply (IH st1); [|by eapply Hbody; [left|..]|done].
    intros st2 x st3 Hx. apply Hbody. by right.
Qed.

Lemma empty_step_other (target : Exe) (env env' : list (string * Value PyFloat))
  (name other : string) :
  empty_step target env name = Ok env' -> other ≠ name ->
  env_get other env' = env_get other env.
Proof.
  unfold empty_step. destruct (env_get name _) as [decl|]; [|done].
  intros H Hne.
  assert (forall v, env_get other (env_bind name v env) = env_get other env)
    as Hbind.
  { intros v. rewrite env_get_bind.
    by destruct (String.eqb_spec name other) as [->|]. }
  destruct (decl_type decl) as
    [o|o|o|o|o|o|item o [|]|l r o|k v o|n o|o|o];
    try done; injection H as <-; apply Hbind.
Qed.

Lemma none_step_other (target : Exe) (env env' : list (string * Value PyFloat))
  (name other : string) :
  none_step target env name = Ok env' -> other ≠ name ->
  env_get other env' = env_get other env.
Proof.
  unfold none_step. destruct (env_get name _) as [decl|]; [|done].
  destruct (negb _); [done|]. intros [= <-] Hne. rewrite env_get_bind.
  by destruct (String.eqb_spec name other) as [->|].
Qed.

Lemma insert_value_other (name other : string) (v : Value PyFloat)
  (st st' : list (string * Value PyFloat) * gset string) :
  insert_value type_coerces name v st = Ok st' -> other ≠ name ->
  env_get other st'.1 = env_get other st.1.
Proof.
  destruct st as [env keys]. unfold insert_value. intros H Hne.
  assert (env_get other (env_bind name v env) = env_get other env) as Hbind.
  { rewrite env_get_bind. by destruct (String.eqb_spec name other) as [->|]. }
  destruct (env_get name env) as [existing|];
    [|by injection H as <-].
  case_bool_decide; [|by injection H as <-].
  destruct v; try done. destruct existing; try done.
  destruct (type_coerces _ _); [|done]. injection H as <-.
  cbn [fst]. rewrite env_get_set.
  by destruct (String.eqb_spec name other) as [->|].
Qed.

Lemma cli_step_other (target : Exe) (one_input other : string)
  (st st' : list (string * Value PyFloat) * gset string) :
  step target st one_input = Ok st' -> token_name one_input ≠ Some other ->
  env_get other st'.1 = env_get other st.1.
Proof.
  unfold cli_step, token_name.
  destruct (parse_name_value one_input) as [[name s]|]; [|done].
  destruct (find_decl target name) as [decl|]; [|done].
  destruct (runner_input_value _ _ _ _ _ _ _ _) as [v|e]; [|done].
  intros H Hne. eapply insert_value_other; [done|].
  intros ->. by apply Hne.
Qed.

(** X7: [runner_input] touches only the names it is given.  A name that is
    neither in the --empty list nor in the --none list nor addressed by a
    command-line token keeps the binding of the JSON source, or stays
    unbound; hence every name bound in the result comes from one of these
    four sources. *)
Theorem runner_input_untouched (doc : Document) (inputs : list string)
  (env0 : list (string * Value PyFloat)) (empty none : list string)
  (task : option string) (check_required : bool) (target : Target)
  (env : list (string * Value PyFloat)) :
  run doc inputs (Ok env0) empty none task check_required = Ok (target, env) ->
  (forall name,
     name ∉ empty -> name ∉ none ->
     (forall one_input, one_input ∈ merge_adjacent inputs ->
                        token_name one_input ≠ Some name) ->
     env_get name env = env_get name env0)
  ∧ (forall name,
       is_Some (env_get name env) ->
       is_Some (env_get name env0) ∨ name ∈ empty ∨ name ∈ none
       ∨ exists one_input, one_input ∈ merge_adjacent inputs
                           ∧ token_name one_input = Some name).
Proof.
  intros H. apply runner_input_Ok in H
    as (env0' & env1 & env2 & keys & _ & [= <-] & Hempty & Hnone & Hcli & _).
  assert (forall name,
     name ∉ empty -> name ∉ none ->
     (forall one_input, one_input ∈ merge_adjacent inputs ->
                        token_name one_input ≠ Some name) ->
     env_get name env = env_get name env0) as Hkept.
  { intros name Hne Hnn Hnt.
    assert (env_get name env1 = env_get name env0) as H1.
    { apply (for_each_invariant (empty_step (target_exe target))
               (fun e => env_get name e = env_get name env0) empty env0 env1);
        [|reflexivity|exact Hempty].
      intros st x st' Hx Hst Hstep. rewrite <- Hst.
      eapply empty_step_other; [done|]. by intros ->. }
    assert (env_get name env2 = env_get name env0) as H2.
    { apply (for_each_invariant (none_step (target_exe target))
               (fun e => env_get name e = env_get name env0) none env1 env2);
        [|exact H1|exact Hnone].
      intros st x st' Hx Hst Hstep. rewrite <- Hst.
      eapply none_step_other; [done|]. by intros ->. }
    apply (for_each_invariant (step (target_exe target))
             (fun st => env_get name st.1 = env_get name env0)
             (merge_adjacent inputs) (env2, list_to_set env0.*1) (env, keys));
      [|exact H2|exact Hcli].
    intros st x st' Hx Hst Hstep. rewrite <- Hst.
    eapply cli_step_other; [done|]. by apply Hnt. }
  split; [done|].
  intros name Hbound.
  destruct (decide (name ∈ empty)) as [?|Hne]; [by auto|].
  destruct (decide (name ∈ none)) as [?|Hnn]; [by auto|].
  destruct (decide (Exists (fun t => token_name t = Some name)
                           (merge_adjacent inputs))) as [Hex|Hnex].
  - apply Exists_exists in Hex as (t & Ht & Hname). eauto 10.
  - left. rewrite <- (Hkept name Hne Hnn); [done|].
    intros t Ht Hname. apply Hnex, Exists_exists. eauto.
Qed.

End MergedEnvironment.

(** ** Runtime overrides on the command line *)

Lemma split_on_whole (c : ascii) (x : string) :
  str_find c x = None -> split_on c x = [x].
Proof.
  induction x as [|a x IH]; [done|]. simpl.
  destruct (Ascii.eqb a c); [done|].
  destruct (str_find c x); [done|]. intros _. by rewrite IH.
Qed.

Lemma split_on_app (c : ascii) (x s : string) :
  str_find c x = None ->
  split_on c (x +:+ String c s) = x :: split_on c s.
Proof.
  induction x as [|a x IH]; intros Hnone.
  - change ("" +:+ String c s) with (String c s). simpl.
    by rewrite Ascii.eqb_refl.
  - rewrite str_app_cons. simpl in *. destruct (Ascii.eqb a c); [done|].
    destruct (str_find c x); [done|]. by rewrite IH.
Qed.

Lemma join_cons2 (sep x y : string) (rest : list string) :
  join sep (x :: y :: rest) = x +:+ sep +:+ join sep (y :: rest).
Proof. done. Qed.

(** Splitting at dots undoes joining with dots. *)
Lemma split_on_join (parts : list string) :
  parts ≠ [] -> Forall (fun p => str_find "." p = None) parts ->
  split_on "." (join "." parts) = parts.
Proof.
  intros Hne Hparts. induction Hparts as [|x parts Hx Hparts IH]; [done|].
  destruct parts as [|y rest]; [by apply split_on_whole|].
  rewrite join_cons2. change ("." +:+ join "." (y :: rest))
    with (String "." (join "." (y :: rest))).
  rewrite (split_on_app _ _ _ Hx). by rewrite IH.
Qed.

Lemma index_of_first (t : string) (pre rest : list string) :
  t ∉ pre -> index_of t (pre ++ t :: rest) = Some (List.length pre).
Proof.
  induction pre as [|x pre IH]; intros Hpre; simpl.
  - by rewrite String.eqb_refl.
  - apply not_elem_of_cons in Hpre as [Hne Hpre].
    destruct (String.eqb_spec x t); [congruence|]. by rewrite IH.
Qed.

Lemma index_of_absent (t : string) (parts : list string) :
  t ∉ parts -> index_of t parts = None.
Proof.
  induction parts as [|x parts IH]; intros Hparts; simpl; [done|].
  apply not_elem_of_cons in Hparts as [Hne Hparts].
  destruct (String.eqb_spec x t); [congruence|]. by rewrite IH.
Qed.

(** X8: how a command-line name that is not declared resolves.  The first
    dotted segment [runtime] decides: when something follows it, the name
    stands for the [_runtime] declaration of the dotted prefix before it
    (later [runtime] segments do not matter); a name that ends in its first
    [runtime] segment, or has none, resolves to nothing. *)
Theorem find_decl_runtime_override (target : Exe) (pre rest : list string)
  (key : string) :
  Forall (fun p => str_find "." p = None) (pre ++ key :: rest) ->
  "runtime" ∉ pre ->
  (env_get (join "." (pre ++ "runtime" :: key :: rest))
           (available_inputs target) = None ->
   find_decl target (join "." (pre ++ "runtime" :: key :: rest))
   = env_get (join "." (pre ++ ["_runtime"])) (available_inputs target))
  ∧ (env_get (join "." (pre ++ ["runtime"])) (available_inputs target) = None ->
     find_decl target (join "." (pre ++ ["runtime"])) = None)
  ∧ ("runtime" ∉ key :: rest ->
     env_get (join "." (pre ++ key :: rest)) (available_inputs target) = None ->
     find_decl target (join "." (pre ++ key :: rest)) = None).
Proof.
  intros Hparts Hpre.
  apply Forall_app in Hparts as [Hpre_parts Hrest_parts].
  assert (str_find "." "runtime" = None) as Hrt by done.
  split; [|split].
  - intros Hundeclared. unfold find_decl. rewrite Hundeclared.
    rewrite split_on_join.
    + rewrite (index_of_first _ _ _ Hpre), length_app. cbn [List.length].
      destruct (Nat.ltb_spec (List.length pre + 1)
                  (List.length pre + S (S (List.length rest)))); [|lia].
      by rewrite take_app_length.
    + by destruct pre.
    + apply Forall_app. split; [done|]. by constructor.
  - intros Hundeclared. unfold find_decl. rewrite Hundeclared.
    rewrite split_on_join.
    + rewrite (index_of_first _ _ _ Hpre), length_app. cbn [List.length].
      by destruct (Nat.ltb_spec (List.length pre + 1) (List.length pre + 1));
        [lia|].
    + by destruct pre.
    + apply Forall_app. split; [done|]. by constructor.
  - intros Hnone Hundeclared. unfold find_decl. rewrite Hundeclared.
    rewrite split_on_join.
    + rewrite index_of_absent; [done|].
      intros Hin. apply elem_of_app in Hin as [?|?]; done.
    + by destruct pre.
    + by apply Forall_app.
Qed.

(** ** What the Path Validator accepts and how it fails *)

Lemma check_files_clean (fs : FileSystem) (wroot path : string)
  (files : list string) :
  (check_files fs wroot path files).2 = false ->
  forall fn, fn ∈ files -> ¬ bad_symlink fs path (os_path_join wroot fn).
Proof.
  induction files as [|g files IH]; intros Hok fn Hfn; [inversion Hfn|].
  simpl in Hok.
  destruct (unusable_symlink fs (os_path_join wroot g) path)
    as [ops bad] eqn:Hu.
  destruct bad; [done|].
  destruct (check_files fs wroot path files) as [ops' bad'] eqn:Hc.
  simpl in Hok. subst bad'.
  apply elem_of_cons in Hfn as [->|Hfn].
  - intros Hbad. apply unusable_symlink_bad in Hbad. by rewrite Hu in Hbad.
  - by apply IH.
Qed.

Lemma walk_check_outcome (fs : FileSystem) (path : string)
  (items : list WalkItem) :
  match (walk_check fs path items).2 with
  | Ok _ => Forall (clean_walk_item fs path) items
  | Raise (InputError _) => True
  | Raise OSError => WalkOSError ∈ items
  | Raise _ => False
  end.
Proof.
  induction items as [|[wroot sd files|] items IH]; simpl.
  - constructor.
  - pose proof (check_files_clean fs wroot path files) as Hclean.
    destruct (check_files fs wroot path files) as [ops bad].
    destruct bad; [done|].
    destruct (walk_check fs path items) as [ops' [[]|e]]; simpl in *.
    + constructor; [exact (Hclean eq_refl) | done].
    + destruct e; try done. by right.
  - left.
Qed.

(** X9: what an accepted path guarantees.  Either the downloadable
    predicate accepted the text, which is returned as it is; or the result is
    the absolute path of something that exists with the requested kind and
    lies within the root, and for a directory the whole walk went through
    without an error and without a bad file symlink. *)
Theorem validate_input_path_accepted (fs : FileSystem) (path : string)
  (directory : bool) (downloadable : option (string -> bool -> bool))
  (root p : string) :
  validate_input_path fs path directory downloadable root = Ok p ->
  (is_downloadable downloadable path directory = true ∧ p = path)
  ∨ (is_downloadable downloadable path directory = false
     ∧ p = os_path_abspath fs path
     ∧ (if directory then os_path_isdir fs path else os_path_isfile fs path)
       = true
     ∧ path_really_within fs p root = true
     ∧ (directory = true ->
        Forall (clean_walk_item fs p) (os_walk fs p))).
Proof.
  unfold validate_input_path, validate_input_path_ops.
  destruct (is_downloadable downloadable path directory);
    [intros [= <-]; by left|].
  intros H. right. split; [done|].
  destruct directory.
  - destruct (os_path_isdir fs path); simpl in H; [|done].
    destruct (path_really_within fs (os_path_abspath fs path) root) eqn:Hin;
      simpl in H; [|done].
    pose proof (walk_check_outcome fs (os_path_abspath fs path)
                  (os_walk fs (os_path_abspath fs path))) as Hwalk.
    destruct (walk_check fs _ _) as [ops [[]|e]]; simpl in *; [|done].
    injection H as <-. by rewrite Hin.
  - destruct (os_path_isfile fs path); simpl in H; [|done].
    destruct (path_really_within fs (os_path_abspath fs path) root) eqn:Hin;
      simpl in H; [|done].
    injection H as <-. by rewrite Hin.
Qed.

Lemma validate_input_path_raises (fs : FileSystem) (path : string)
  (directory : bool) (downloadable : option (string -> bool -> bool))
  (root : string) (e : Exn) :
  validate_input_path fs path directory downloadable root = Raise e ->
  (exists m, e = InputError m) ∨ (e = OSError ∧ directory = true).
Proof.
  unfold validate_input_path, validate_input_path_ops.
  destruct (is_downloadable downloadable path directory); [done|].
  destruct directory.
  - intros H.
    destruct (os_path_isdir fs path); simpl in H;
      [|injection H as <-; left; by eexists].
    destruct (path_really_within fs (os_path_abspath fs path) root);
      simpl in H; [|injection H as <-; left; by eexists].
    pose proof (walk_check_outcome fs (os_path_abspath fs path)
                  (os_walk fs (os_path_abspath fs path))) as Hwalk.
    destruct (walk_check fs _ _) as [ops [[]|e']]; simpl in *; [done|].
    injection H as <-. destruct e'; try done; [left; by eexists | by right].
  - intros H. left. destruct (os_path_isfile fs path); simpl in H;
      [|injection H as <-; by eexists].
    destruct (path_really_within fs (os_path_abspath fs path) root);
      simpl in H; [done|]. injection H as <-. by eexists.
Qed.

(** X10: how path validation fails.  It raises nothing but an Input error,
    except that for a directory input an [OSError] met by the walk is passed
    on; a file input fails with an Input error only, and does not walk. *)
Theorem validate_input_path_failure (fs : FileSystem) (path : string)
  (directory : bool) (downloadable : option (string -> bool -> bool))
  (root : string) (e : Exn) :
  validate_input_path fs path directory downloadable root = Raise e ->
  ((exists m, e = InputError m)
   ∨ (e = OSError ∧ directory = true
      ∧ WalkOSError ∈ os_walk fs (os_path_abspath fs path)))
  ∧ (directory = false ->
     forall q, OpWalk q
               ∉ (validate_input_path_ops fs path directory downloadable
                    root).1).
Proof.
  unfold validate_input_path, validate_input_path_ops.
  destruct (is_downloadable downloadable path directory); [done|].
  destruct directory.
  - intros H. split; [|done].
    destruct (os_path_isdir fs path); simpl in H;
      [|injection H as <-; left; by eexists].
    destruct (path_really_within fs (os_path_abspath fs path) root);
      simpl in H; [|injection H as <-; left; by eexists].
    pose proof (walk_check_outcome fs (os_path_abspath fs path)
                  (os_walk fs (os_path_abspath fs path))) as Hwalk.
    destruct (walk_check fs _ _) as [ops [[]|e']]; simpl in *; [done|].
    injection H as <-. destruct e'; try done; [left; by eexists | by right].
  - intros H. split.
    + left. destruct (os_path_isfile fs path); simpl in H;
        [|injection H as <-; by eexists].
      destruct (path_really_within fs (os_path_abspath fs path) root);
        simpl in H; [done|]. injection H as <-. by eexists.
    + intros _ q. destruct (os_path_isfile fs path); simpl.
      * destruct (path_really_within fs (os_path_abspath fs path) root);
          simpl; set_solver.
      * set_solver.
Qed.

(** ** What the Typed Value Coercer returns and how it fails *)

Section CoercedValues.
Context {PyFloat JSON : Type}.
Variable py_float : string -> option PyFloat.
Variable json_loads : string -> JSON + string.
Variable value_from_json : Ty -> JSON -> Result (Value PyFloat).
Variable fs : FileSystem.
Variable downloadable : option (string -> bool -> bool).
Variable root : string.

Local Abbreviation coerce s ty :=
  (runner_input_value py_float json_loads value_from_json fs s ty
     downloadable root).

Lemma coerce_array (s : string) (item : Ty) (o ne : bool) :
  coerce s (TArray item o ne)
  = if wrappable_item item
    then rbind (fun v => Ok (VArray item [v])) (coerce s item)
    else Raise (no_command_line_support (TArray item o ne)).
Proof. by destruct item. Qed.

Lemma coerce_scalar_raises (s : string) (ty : Ty) (e : Exn) :
  is_json_type ty = false -> wrappable_item ty = true ->
  coerce s ty = Raise e ->
  (exists m, e = InputError m)
  ∨ (e = ValueError ∧ exists o, ty = TInt o ∨ ty = TFloat o)
  ∨ (e = OSError ∧ exists o, ty = TDirectory o).
Proof.
  intros _ Hw. destruct ty as [o|o|o|o|o|o|item o ne|l r o|k v o|n o|o|o];
    try done; simpl.
  - destruct (validate_input_path fs _ false downloadable root) eqn:Hv;
      [done|]. intros [= <-].
    destruct (validate_input_path_raises _ _ _ _ _ _ Hv) as [?|[_ ?]];
      [by left | done].
  - destruct (validate_input_path fs _ true downloadable root) eqn:Hv;
      [done|]. intros [= <-].
    destruct (validate_input_path_raises _ _ _ _ _ _ Hv) as [?|[-> _]];
      [by left | right; right; eauto].
  - destruct (py_int s); [done|]. intros [= <-]. right; left. eauto.
  - destruct (py_float s); [done|]. intros [= <-]. right; left. eauto.
Qed.

(** X11: how command-line coercion fails, for every declared type whose
    text is not decoded as JSON.  The failure is an Input error, or the
    [ValueError] of [int()] or [float()] when the text is read as an Int or a
    Float, or the [OSError] of a directory walk when it is read as a
    Directory; it is never an assertion failure. *)
Theorem runner_input_value_failure (s : string) (ty : Ty) (e : Exn) :
  is_json_type ty = false ->
  coerce s ty = Raise e ->
  (exists m, e = InputError m)
  ∨ (e = ValueError ∧ exists o, read_as ty = TInt o ∨ read_as ty = TFloat o)
  ∨ (e = OSError ∧ exists o, read_as ty = TDirectory o).
Proof.
  intros Hj. destruct (wrappable_item ty) eqn:Hw.
  - intros H. destruct (coerce_scalar_raises s ty e Hj Hw H)
      as [?|[[-> (o & Ho)]|[-> (o & ->)]]]; [by left|..].
    + right; left. split; [done|]. exists o.
      destruct Ho as [-> | ->]; [by left | by right].
    + right; right. eauto.
  - destruct ty as [o|o|o|o|o|o|item o ne|l r o|k v o|n o|o|o];
      try done.
    + simpl. repeat case_match; intros [= <-]; left; by eexists.
    + cbn [read_as]. rewrite coerce_array.
      destruct (wrappable_item item) eqn:Hwi.
      * assert (is_json_type item = false) as Hji by by destruct item.
        destruct (coerce s item) as [x|e'] eqn:Hitem; [done|].
        intros [= <-].
        apply (coerce_scalar_raises s item e' Hji Hwi Hitem).
      * intros [= <-]. left. by eexists.
    + simpl. repeat case_match; try done; intros [= <-].
    + intros [= <-]. left. by eexists.
Qed.

(** X12: whether the coerced value is an array is decided by the declared
    type alone (for the types not decoded as JSON): an array type yields an
    array of exactly one item, which is not itself an array, and any other
    type yields a value that is not an array. *)
Theorem runner_input_value_shape (s : string) (ty : Ty) (v : Value PyFloat) :
  is_json_type ty = false ->
  coerce s ty = Ok v ->
  match ty with
  | TArray item _ _ =>
      exists x, v = VArray item [x] ∧ is_array x = false
                ∧ coerce s item = Ok x
  | _ => is_array v = false
  end.
Proof.
  intros Hj.
  assert (forall t x, wrappable_item t = true -> coerce s t = Ok x ->
                      is_array x = false) as Hscalar.
  { intros t x Ht. destruct t; try done; simpl; intros H.
    - by injection H as <-.
    - unfold mbind, Result_bind in H.
      by apply rbind_Ok in H as (p & _ & [= <-]).
    - unfold mbind, Result_bind in H.
      by apply rbind_Ok in H as (p & _ & [= <-]).
    - destruct (py_int s); [by injection H as <- | done].
    - destruct (py_float s); [by injection H as <- | done]. }
  destruct ty as [o|o|o|o|o|o|item o ne|l r o|k w o|n o|o|o]; try done;
    try (apply Hscalar; done).
  - simpl. repeat case_match; try done; by intros [= <-].
  - rewrite coerce_array. destruct (wrappable_item item) eqn:Hwi; [|done].
    destruct (coerce s item) as [x|e] eqn:Hitem; [|done].
    intros [= <-]. exists x. split; [done|]. split; [|done].
    by eapply Hscalar.
  - simpl. repeat case_match; try done; by intros [= <-].
Qed.

End CoercedValues.

(** ** Repeated tokens for an array input *)

Section RepeatedTokens.
Context {PyFloat JSON : Type}.
Variable py_float : string -> option PyFloat.
Variable json_loads : string -> JSON + string.
Variable value_from_json : Ty -> JSON -> Result (Value PyFloat).
Variable type_coerces : Value PyFloat -> Value PyFloat -> bool.
Variable fs : FileSystem.
Variable target : Exe.
Variable downloadable : option (string -> bool -> bool).
Variable root : string.

Local Abbreviation step :=
  (cli_step py_float json_loads value_from_json type_coerces fs target
     downloadable root).

Variable c : ascii.
Variable rest : string.
Variable decl : Decl.
Variable optional item_optional nonempty : bool.
Hypothesis name_alpha : isalpha c = true.
Hypothesis name_plain : str_find "=" (String c rest) = None.
Hypothesis name_declared : find_decl target (String c rest) = Some decl.
Hypothesis name_strings :
  decl_type decl = TArray (TString item_optional) optional nonempty.
Hypothesis strings_coerce :
  forall xs ys : list (Value PyFloat),
    type_coerces (VArray (TString item_optional) xs)
                 (VArray (TString item_optional) ys) = true.

Local Abbreviation name := (String c rest).
Local Abbreviation token value := (name +:+ "=" +:+ value).

Lemma string_token_step (st : list (string * Value PyFloat) * gset string)
  (value : string) :
  step st (token value)
  = insert_value type_coerces name
      (VArray (TString item_optional) [VString value]) st.
Proof.
  unfold cli_step.
  assert (parse_name_value (token value) = Some (name, value)) as ->.
  { unfold parse_name_value.
    change ("=" +:+ value) with (String "=" value).
    pose proof (split_once_app "=" _ value name_plain) as Hsplit.
    rewrite str_app_cons in Hsplit |- *.
    by rewrite Hsplit, name_alpha. }
  by rewrite name_declared, name_strings.
Qed.

Lemma string_tokens_extend (values : list string)
  (env : list (string * Value PyFloat)) (keys : gset string)
  (items : list (Value PyFloat)) :
  env_get name env = Some (VArray (TString item_optional) items) ->
  name ∉ keys ->
  exists env',
    for_each step (env, keys) ((fun v => token v) <$> values) = Ok (env', keys)
    ∧ env_get name env'
      = Some (VArray (TString item_optional) (items ++ (VString <$> values)))
    ∧ forall other, other ≠ name -> env_get other env' = env_get other env.
Proof.
  revert env items. induction values as [|v values IH]; intros env items Hg Hk.
  - exists env. by rewrite app_nil_r.
  - destruct (IH (env_set name (VArray (TString item_optional)
                                  (items ++ [VString v])) env)
                (items ++ [VString v])) as (env' & Hloop & Hget & Hother).
    { by rewrite env_get_set, String.eqb_refl, Hg. }
    { done. }
    exists env'. split; [|split].
    + rewrite fmap_cons, for_each_cons, string_token_step.
      unfold insert_value. rewrite Hg, bool_decide_true by done.
      by rewrite strings_coerce.
    + by rewrite Hget, <- app_assoc.
    + intros other Hne. rewrite (Hother other Hne), env_get_set.
      by destruct (String.eqb_spec name other) as [<-|].
Qed.

(** X13: repeated tokens accumulate in command-line order.  For an input
    declared as an array of strings, tokens [name=v1] ... [name=vn], met
    while the name is unbound or of JSON origin, leave the name bound to the
    array of [v1], ..., [vn] in that order, drop it from the JSON-origin set
    and change no other binding. *)
Theorem repeated_tokens_accumulate (first : string) (more : list string)
  (env : list (string * Value PyFloat)) (keys : gset string) :
  env_get name env = None ∨ name ∈ keys ->
  exists env',
    for_each step (env, keys) ((fun v => token v) <$> first :: more)
    = Ok (env', keys ∖ {[name]})
    ∧ env_get name env'
      = Some (VArray (TString item_optional) (VString <$> first :: more))
    ∧ forall other, other ≠ name -> env_get other env' = env_get other env.
Proof.
  intros Hstart.
  destruct (string_tokens_extend more
              (env_bind name (VArray (TString item_optional) [VString first])
                        env)
              (keys ∖ {[name]}) [VString first])
    as (env' & Hloop & Hget & Hother).
  { apply env_get_bind_eq. }
  { set_solver. }
  exists env'. split; [|split].
  - rewrite fmap_cons, for_each_cons, string_token_step.
    unfold insert_value.
    destruct (env_get name env) as [existing|] eqn:Hex.
    + destruct Hstart as [?|Hin]; [done|].
      by rewrite bool_decide_false by (by intros ?).
    + done.
  - done.
  - intros other Hne. rewrite (Hother other Hne), env_get_bind.
    by destruct (String.eqb_spec name other) as [<-|].
Qed.

End RepeatedTokens.

(** ** The exit status of a failed run *)

(** X14: a failed run never makes the process exit with status 0.  When
    [runner] exits on a failure, the status is 2 unless the innermost cause
    is a failed command, and then it is that command's nonzero status or
    2. *)
Theorem runner_failure_exit_nonzero (exn : EngineExn) (debug : bool)
  (status : Z) :
  outcome (runner_failure exn debug) = SysExit status ->
  status ≠ 0%Z
  ∧ (status ≠ 2%Z ->
     root_cause exn = Some (CommandFailed (Some status))).
Proof.
  unfold runner_failure. rewrite unwrap_run_failed_chain. cbn [outcome].
  destruct (root_cause exn) as [[r c|[st|]| | |]|], debug; try done;
    intros [= <-]; simpl; try done.
  destruct (Z.eqb_spec st 0); [done|]. split; [done|]. done.
Qed.

(** ** The exit code of [check] as a function of the findings *)

Lemma existsb_elem {A} (p : A -> bool) (l : list A) :
  existsb p l = true <-> exists x, x ∈ l ∧ p x = true.
Proof.
  rewrite existsb_exists. by setoid_rewrite list_elem_of_In.
Qed.

Lemma bool_eq_iff (a b : bool) : (a = true <-> b = true) -> a = b.
Proof. destruct a, b; intuition congruence. Qed.

Lemma check_exit_code_findings (strict show_all : bool)
  (suppress : gset string) (exit_on_lint_severity configured : option string)
  (docs : list Node) :
  check_exit_code strict show_all suppress exit_on_lint_severity configured
    docs
  = exit_code_of_findings strict show_all suppress
      (threshold_level
         (effective_exit_on_severity exit_on_lint_severity configured))
      (List.flat_map all_findings docs).
Proof.
  unfold check_exit_code, _determine_exit_code, exit_code_of_findings.
  set (eff := effective_exit_on_severity exit_on_lint_severity configured).
  pose proof (outline_docs_accounts suppress show_all eff docs
                {| shown := 0; should_exit := false;
                   info_severity := None; info_reason := None |})
    as [Hshown Hexit].
  cbn [shown should_exit] in Hshown, Hexit.
  set (st := fold_left _ docs _) in *.
  assert ((0 <? shown st)%nat
          = existsb (emitted suppress show_all)
              (List.flat_map all_findings docs)) as ->.
  { apply bool_eq_iff. rewrite Nat.ltb_lt, Hshown, existsb_elem.
    split; [intros [?|?]; [lia|done] | by right]. }
  assert (should_exit st
          = existsb (fun f => emitted suppress show_all f
                              && triggers_exit (threshold_level eff) f)
              (List.flat_map all_findings docs)) as ->.
  { apply bool_eq_iff. rewrite Hexit, existsb_elem. split.
    - intros [?|(f & Hin & Hem & Htr)]; [done|].
      exists f. by rewrite Hem, Htr.
    - intros (f & Hin & Hboth). apply andb_true_iff in Hboth as [Hem Htr].
      right. by exists f. }
  done.
Qed.

Lemma existsb_same_elements {A} (p : A -> bool) (l l' : list A) :
  (forall x, x ∈ l <-> x ∈ l') -> existsb p l = existsb p l'.
Proof.
  intros Hl. apply bool_eq_iff. rewrite !existsb_elem.
  by setoid_rewrite Hl.
Qed.

(** X15: the exit code of [check] depends on the documents only through
    the findings attached to them: two lists of documents that carry the same
    findings, wherever in the trees and in whatever order, give the same exit
    code under the same options. *)
Theorem check_exit_code_same_findings (strict show_all : bool)
  (suppress : gset string) (exit_on_lint_severity configured : option string)
  (docs docs' : list Node) :
  (forall f, f ∈ List.flat_map all_findings docs
             <-> f ∈ List.flat_map all_findings docs') ->
  check_exit_code strict show_all suppress exit_on_lint_severity configured
    docs
  = check_exit_code strict show_all suppress exit_on_lint_severity configured
      docs'.
Proof.
  intros Hsame. rewrite !check_exit_code_findings.
  unfold exit_code_of_findings.
  by rewrite !(existsb_same_elements _ _ _ Hsame).
Qed.

(** X16: a threshold name that is not a severity level is ignored, and the
    configured threshold is not used in its place: the exit code is the one
    obtained with no threshold at all, 2 in strict mode with a shown
    finding and 0 otherwise. *)
Theorem invalid_threshold_ignored (strict show_all : bool)
  (suppress : gset string) (name : string) (configured : option string)
  (docs : list Node) :
  name ≠ "" -> severity_of_name (upper name) = None ->
  check_exit_code strict show_all suppress (Some name) configured docs
  = check_exit_code strict show_all suppress None None docs
  ∧ check_exit_code strict show_all suppress (Some name) configured docs
    = if strict && existsb (emitted suppress show_all)
                     (List.flat_map all_findings docs)
      then 2%Z else 0%Z.
Proof.
  intros Hne Hinvalid. rewrite !check_exit_code_findings.
  assert (effective_exit_on_severity (Some name) configured = None) as ->.
  { unfold effective_exit_on_severity. destruct name as [|c s]; [done|].
    cbn [truthy_ostr truthy_str]. cbn [mbind option_bind compose].
    by rewrite Hinvalid. }
  split; [done|].
  unfold exit_code_of_findings, threshold_level. cbn [mbind option_bind].
  destruct (strict && _); [done|].
  assert (existsb (fun f => emitted suppress show_all f
                            && triggers_exit None f)
            (List.flat_map all_findings docs) = false) as ->; [|done].
  apply not_true_is_false. rewrite existsb_elem.
  intros (f & _ & H). by rewrite andb_false_r in H.
Qed.

Lemma upper_ascii_idem (c : ascii) : upper_ascii (upper_ascii c) = upper_ascii c.
Proof. by destruct c as [[] [] [] [] [] [] [] []]. Qed.

Lemma upper_idem (s : string) : upper (upper s) = upper s.
Proof.
  induction s as [|c s IH]; [done|]. simpl. by rewrite upper_ascii_idem, IH.
Qed.

(** X17: the threshold name is read without regard to letter case: a name
    and its upper-case form give the same exit code. *)
Theorem threshold_case_insensitive (strict show_all : bool)
  (suppress : gset string) (name : string) (configured : option string)
  (docs : list Node) :
  check_exit_code strict show_all suppress (Some name) configured docs
  = check_exit_code strict show_all suppress (Some (upper name)) configured
      docs.
Proof.
  rewrite !check_exit_code_findings. f_equal.
  unfold effective_exit_on_severity, threshold_level.
  destruct name as [|c s]; [done|].
  change (upper (String c s)) with (String (upper_ascii c) (upper s)).
  cbn [truthy_ostr truthy_str mbind option_bind compose].
  change (String (upper_ascii c) (upper s)) with (upper (String c s)).
  rewrite upper_idem.
  destruct (severity_of_name (upper (String c s))) eqn:Hlevel;
    cbn [mbind option_bind compose]; [|done].
  by rewrite upper_idem, Hlevel.
Qed.

(** X18: findings whose class is in the --suppress set count for nothing.
    When every finding of the documents has its class there, the exit code
    is 0, in strict mode too, with all findings requested and under every
    threshold. *)
Theorem suppressed_classes_exit_zero (strict show_all : bool)
  (suppress : gset string) (exit_on_lint_severity configured : option string)
  (docs : list Node) :
  (forall f, f ∈ List.flat_map all_findings docs -> cls f ∈ suppress) ->
  check_exit_code strict show_all suppress exit_on_lint_severity configured
    docs = 0%Z.
Proof.
  intros Hsupp. rewrite check_exit_code_findings.
  assert (forall f, f ∈ List.flat_map all_findings docs ->
                    emitted suppress show_all f = false) as Hhidden.
  { intros f Hf. unfold emitted.
    assert (suppress ≠ ∅) as Hne by (specialize (Hsupp f Hf); set_solver).
    rewrite (bool_decide_false _ Hne), (bool_decide_true _ (Hsupp f Hf)).
    done. }
  unfold exit_code_of_findings.
  assert (existsb (emitted suppress show_all)
            (List.flat_map all_findings docs) = false) as ->.
  { apply not_true_is_false. rewrite existsb_elem.
    intros (f & Hf & Hem). by rewrite (Hhidden f Hf) in Hem. }
  rewrite andb_false_r.
  assert (existsb (fun f => emitted suppress show_all f
                            && triggers_exit _ f)
            (List.flat_map all_findings docs) = false) as ->; [|done].
  apply not_true_is_false. rewrite existsb_elem.
  intros (f & Hf & Hem). by rewrite (Hhidden f Hf) in Hem.
Qed.

(** ** Counting the findings shown *)

Section Counting.
Variable suppress : gset string.
Variable show_all : bool.
Variable exit_on_severity : option string.

Local Abbreviation show := (show_finding suppress show_all exit_on_severity).
Local Abbreviation count := (count_emitted suppress show_all).

Lemma count_cons (f : Finding) (l : list Finding) :
  count (f :: l)
  = ((if emitted suppress show_all f then 1 else 0) + count l)%nat.
Proof.
  unfold count_emitted. simpl. by destruct (emitted suppress show_all f).
Qed.

Lemma count_app (l l' : list Finding) :
  count (l ++ l') = (count l + count l')%nat.
Proof.
  unfold count_emitted. by rewrite List.filter_app, length_app.
Qed.

Lemma count_insert (f : Finding) (l : list Finding) :
  count (insert_by_pos f l) = count (f :: l).
Proof.
  induction l as [|g l IH]; [done|]. simpl insert_by_pos.
  destruct (pos_ltb (pos g) (pos f)); [|done].
  rewrite (count_cons g), IH, !count_cons. lia.
Qed.

Lemma count_sorted (l : list Finding) : count (sorted_by_pos l) = count l.
Proof.
  induction l as [|f l IH]; [done|]. unfold sorted_by_pos in *. simpl.
  by rewrite count_insert, !count_cons, IH.
Qed.

Lemma show_finding_counts (st : LintState) (f : Finding) :
  shown (show st f)
  = (shown st + if emitted suppress show_all f then 1 else 0)%nat
  ∧ (should_exit st = true -> should_exit (show st f) = true).
Proof.
  unfold show_finding. destruct (emitted suppress show_all f);
    [destruct (triggers_exit _ f)|]; simpl; split; try done; lia.
Qed.

Lemma show_findings_count (l : list Finding) (st : LintState) :
  shown (fold_left show l st) = (shown st + count l)%nat
  ∧ (should_exit st = true -> should_exit (fold_left show l st) = true).
Proof.
  revert st. induction l as [|f l IH]; intros st.
  - unfold count_emitted. simpl. split; [lia | done].
  - simpl. destruct (IH (show st f)) as [Hs He].
    destruct (show_finding_counts st f) as [Hs1 He1].
    rewrite Hs, Hs1, count_cons. split; [lia | auto].
Qed.

(** X19: the counter [shown] grows by exactly the number of findings
    printed for the node and everything beneath it, each finding counted
    once whatever the order in which sorting puts it; and the exit flag, once
    set, stays set. *)
Theorem outline_counts_shown (obj : Node) (st : LintState) :
  shown (outline suppress show_all exit_on_severity obj st)
  = (shown st + count (all_findings obj))%nat
  ∧ (should_exit st = true ->
     should_exit (outline suppress show_all exit_on_severity obj st) = true).
Proof.
  revert st. induction obj as [lint children IH] using Node_children_ind.
  intros st. simpl outline. simpl all_findings. rewrite count_app.
  set (st1 := match lint with
              | Some findings => fold_left show (sorted_by_pos findings) st
              | None => st
              end).
  assert (shown st1 = (shown st + count (default [] lint))%nat
          ∧ (should_exit st = true -> should_exit st1 = true)) as [Hs1 He1].
  { unfold st1. destruct lint as [findings|]; simpl.
    - destruct (show_findings_count (sorted_by_pos findings) st) as [Hs He].
      by rewrite Hs, count_sorted.
    - unfold count_emitted. simpl. split; [lia | done]. }
  assert (forall s,
            shown (fold_left (fun s dobj =>
                      outline suppress show_all exit_on_severity dobj s)
                     children s)
            = (shown s + count (List.flat_map all_findings children))%nat
            ∧ (should_exit s = true ->
               should_exit (fold_left (fun s dobj =>
                      outline suppress show_all exit_on_severity dobj s)
                     children s) = true)) as Hchildren.
  { clear Hs1 He1 st1. induction IH as [|c cs Hc _ IHcs]; intros s.
    - unfold count_emitted. simpl. split; [lia | done].
    - simpl. destruct (IHcs (outline suppress show_all exit_on_severity c s))
        as [Hs He].
      destruct (Hc s) as [Hsc Hec].
      rewrite Hs, Hsc, count_app. split; [lia | auto]. }
  destruct (Hchildren st1) as [Hs He]. rewrite Hs, Hs1.
  split; [lia | auto].
Qed.

End Counting.

(** ** Environment overrides *)

Lemma str_take_app (a b : string) : str_take (String.length a) (a +:+ b) = a.
Proof.
  induction a as [|c a IH]; [by destruct b|].
  rewrite str_app_cons. simpl. by rewrite IH.
Qed.

Lemma str_take_all (s : string) : str_take (String.length s) s = s.
Proof. induction s as [|c s IH]; [done|]. simpl. by rewrite IH. Qed.

Lemma str_drop_app (a : string) (c : ascii) (b : string) :
  str_drop (String.length a + 1) (a +:+ String c b) = b.
Proof.
  induction a as [|x a IH]; [done|]. rewrite str_app_cons. simpl. apply IH.
Qed.

(** X20: how one [--env] item is read.  [name=value] with no [=] in the
    name gives that name and that value (which may hold [=] signs and may be
    empty); an item with no [=] at all gives the item as the name and no
    value. *)
Theorem env_item_read (name value item : string) :
  (str_find "=" name = None ->
   env_item_name (name +:+ "=" +:+ value) = name
   ∧ env_item_value (name +:+ "=" +:+ value) = Some value)
  ∧ (str_find "=" item = None ->
     env_item_name item = item ∧ env_item_value item = None).
Proof.
  unfold env_item_name, env_item_value. split.
  - intros Hname. change ("=" +:+ value) with (String "=" value).
    rewrite (str_find_app_none _ _ _ Hname). simpl.
    by rewrite str_take_app, str_drop_app.
  - intros ->. simpl. by rewrite str_take_all.
Qed.

Lemma env_override_step_ok (m : gmap string (option string)) (item : string) :
  str_find "=" item ≠ Some 0%nat ->
  env_override_step m item
  = Ok (<[env_item_name item := env_item_value item]> m).
Proof. intros H. unfold env_override_step. by rewrite bool_decide_false. Qed.

Lemma env_override_step_bad (m : gmap string (option string)) (item : string) :
  str_find "=" item = Some 0%nat ->
  env_override_step m item
  = Raise (InputError ("invalid --env argument: " +:+ item)).
Proof. intros H. unfold env_override_step. by rewrite bool_decide_true. Qed.

Lemma env_override_untouched (args : list string)
  (configured m : gmap string (option string)) (k : string) :
  runner_env_override configured args = Ok m ->
  (forall i, i ∈ args -> env_item_name i ≠ k) ->
  m !! k = configured !! k.
Proof.
  unfold runner_env_override. revert configured.
  induction args as [|a args IH]; intros configured.
  - by intros [= <-].
  - rewrite for_each_cons. intros H Hk.
    apply rbind_Ok in H as (m1 & Hstep & Hrest).
    unfold env_override_step in Hstep. case_bool_decide; [done|].
    injection Hstep as <-.
    rewrite (IH _ Hrest); [|intros i Hi; apply Hk; by right].
    apply lookup_insert_ne. apply Hk. left.
Qed.

(** X21: the dictionary that [--env] items build.  When no item starts with
    [=] the call succeeds; a name that no item gives keeps its configured
    entry, and a name given by several items ends with the value of the last
    of them. *)
Theorem runner_env_override_last_wins (args : list string)
  (configured : gmap string (option string)) :
  Forall (fun i => str_find "=" i ≠ Some 0%nat) args ->
  exists m,
    runner_env_override configured args = Ok m
    ∧ (forall k, (forall i, i ∈ args -> env_item_name i ≠ k) ->
                 m !! k = configured !! k)
    ∧ (forall pre item post,
         args = pre ++ item :: post ->
         (forall i, i ∈ post -> env_item_name i ≠ env_item_name item) ->
         m !! env_item_name item = Some (env_item_value item)).
Proof.
  intros Hok.
  assert (exists m, runner_env_override configured args = Ok m) as [m Hm].
  { unfold runner_env_override. revert configured.
    induction Hok as [|a args Ha _ IH]; intros configured; [by eexists|].
    rewrite for_each_cons, (env_override_step_ok _ _ Ha). apply IH. }
  exists m. split; [done|]. split.
  - intros k. by apply env_override_untouched.
  - intros pre item post -> Hpost.
    unfold runner_env_override in Hm. clear Hok. revert configured Hm.
    induction pre as [|a pre IH]; intros configured Hm.
    + rewrite app_nil_l, for_each_cons in Hm.
      apply rbind_Ok in Hm as (m1 & Hstep & Hrest).
      unfold env_override_step in Hstep. case_bool_decide; [done|].
      injection Hstep as <-.
      rewrite (env_override_untouched post _ m _ Hrest Hpost).
      apply lookup_insert_eq.
    + change ((a :: pre) ++ item :: post) with (a :: (pre ++ item :: post))
        in Hm.
      rewrite for_each_cons in Hm.
      apply rbind_Ok in Hm as (m1 & _ & Hrest). by apply (IH m1).
Qed.

(** X22: an [--env] item that starts with [=] is refused.  The first such
    item stops the call with the Input error "invalid --env argument"
    naming it, whatever follows. *)
Theorem runner_env_override_rejects (pre post : list string) (bad : string)
  (configured : gmap string (option string)) :
  Forall (fun i => str_find "=" i ≠ Some 0%nat) pre ->
  str_find "=" bad = Some 0%nat ->
  runner_env_override configured (pre ++ bad :: post)
  = Raise (InputError ("invalid --env argument: " +:+ bad)).
Proof.
  intros Hpre Hbad. unfold runner_env_override. revert configured.
  induction Hpre as [|a pre Ha _ IH]; intros configured.
  - by rewrite app_nil_l, for_each_cons, (env_override_step_bad _ _ Hbad).
  - change ((a :: pre) ++ bad :: post) with (a :: (pre ++ bad :: post)).
    rewrite for_each_cons, (env_override_step_ok _ _ Ha). apply IH.
Qed.

(** ** Completion of input names *)

Lemma prefix_app_r (p s t : string) :
  String.prefix p s = true -> String.prefix p (s +:+ t) = true.
Proof.
  revert s. induction p as [|c p IH]; intros s.
  { intros _. by destruct (s +:+ t). }
  destruct s as [|d s]; [done|]. rewrite str_app_cons. simpl.
  destruct (ascii_dec c d); [apply IH | done].
Qed.

(** X23: what name completion offers for a non-empty prefix without [=].
    Every suggestion starts with the prefix and is an input name followed by
    [=]; it names a required input, or, only when no required input matches
    the prefix, an available one.  With an empty prefix all required inputs
    are offered. *)
Theorem completions_match_prefix (target : Exe) (prefix : string) :
  (prefix ≠ "" -> str_find "=" prefix = None ->
   forall c, c ∈ completed_input_names target prefix ->
     String.prefix prefix c = true
     ∧ exists nm, c = nm +:+ "="
         ∧ (nm ∈ (required_inputs target).*1
            ∨ (nm ∈ (available_inputs target).*1
               ∧ forall r, r ∈ (required_inputs target).*1 ->
                           String.prefix prefix (r +:+ "=") = false)))
  ∧ (forall nm, nm ∈ (required_inputs target).*1 ->
                nm +:+ "=" ∈ completed_input_names target "").
Proof.
  split.
  - intros Hne Hplain c. unfold completed_input_names.
    assert (truthy_str prefix = true) as -> by by destruct prefix.
    rewrite bool_decide_true by done. cbn [andb].
    destruct (filter _ ((fun nm => nm +:+ "=")
                          <$> dict_keys (required_inputs target).*1))
      as [|m matching] eqn:Hfilter.
    + intros Hc. apply list_elem_of_fmap in Hc as (nm & -> & Hnm).
      apply list_elem_of_filter in Hnm as [Hpre Hnm].
      apply (proj1 (dict_keys_elem _ _)) in Hnm.
      split; [by apply prefix_app_r|]. exists nm. split; [done|]. right.
      split; [done|]. intros r Hr. apply not_true_is_false. intros Hmatch.
      assert (r +:+ "=" ∈ filter (fun nm => String.prefix prefix nm = true)
                ((fun nm => nm +:+ "=")
                   <$> dict_keys (required_inputs target).*1)) as Hin.
      { apply list_elem_of_filter. split; [done|].
        apply list_elem_of_fmap. exists r. split; [done|].
        by apply dict_keys_elem. }
      rewrite Hfilter in Hin. inversion Hin.
    + rewrite <- Hfilter. intros Hc.
      apply list_elem_of_filter in Hc as [Hpre Hc].
      apply list_elem_of_fmap in Hc as (nm & -> & Hnm).
      apply (proj1 (dict_keys_elem _ _)) in Hnm.
      split; [done|]. exists nm. by auto.
  - intros nm Hnm. unfold completed_input_names. cbn [truthy_str andb].
    apply list_elem_of_fmap. exists nm. split; [done|].
    by apply dict_keys_elem.
Qed.

(** * Instances of the further properties *)

Lemma parse_name_value_complete_witness :
  parse_name_value ("x" +:+ "=" +:+ "a=b") = Some ("x", "a=b").
Proof. apply (parse_name_value_complete "x" "" "a=b"); reflexivity. Defined.

Lemma parse_name_value_sound_witness :
  "t.x=2" = "t.x" +:+ "=" +:+ "2"
  ∧ str_find "=" "t.x" = None
  ∧ exists c rest, "t.x" = String c rest ∧ isalpha c = true.
Proof. apply (parse_name_value_sound "t.x=2" "t.x" "2"). reflexivity. Defined.

Lemma merge_adjacent_clean_witness :
  merge_adjacent (["x=1"; "names=a"] ++ ["names="])
  = ["x=1"; "names=a"] ++ ["names="].
Proof.
  apply (merge_adjacent_clean ["x=1"; "names=a"] "names=").
  repeat constructor.
Defined.

Lemma runner_input_binds_required_witness :
  runner_exe demo_task_doc None = Ok (TargetTask demo_task)
  ∧ forall n, n ∈ (required_inputs demo_task).*1 ->
      is_Some (env_get n [("some", VArray (TInt false) [@VInt unit 4%Z]);
                          ("x", VInt 2%Z)]).
Proof.
  apply (runner_input_binds_required no_float no_json no_from_json
           any_coerces demo_fs None "/" demo_task_doc ["x=2"; "some=4"]
           (Ok [("x", VInt 1%Z)]) [] [] None (TargetTask demo_task)).
  reflexivity.
Defined.

Lemma undeclared_override_rejected_witness :
  exists m,
    runner_input no_float no_json no_from_json any_coerces demo_fs
      demo_task_doc ["x=2"] (Ok []) [] ["nope"] None true None "/"
    = Raise (InputError m).
Proof.
  apply (undeclared_override_rejected no_float no_json no_from_json
           any_coerces demo_fs None "/" demo_task_doc ["x=2"] [] [] ["nope"]
           None true (TargetTask demo_task) "nope").
  - reflexivity.
  - right. left.
  - reflexivity.
Defined.

Lemma runner_input_untouched_witness :
  env_get "opt" [("some", VArray (TInt false) [@VInt unit 4%Z]);
                 ("x", VInt 2%Z); ("opt", VInt 9%Z)]
  = env_get "opt" [("x", @VInt unit 1%Z); ("opt", VInt 9%Z)].
Proof.
  destruct (runner_input_untouched no_float no_json no_from_json any_coerces
              demo_fs None "/" demo_task_doc ["x=2"; "some=4"]
              [("x", VInt 1%Z); ("opt", VInt 9%Z)] [] [] None true
              (TargetTask demo_task)
              [("some", VArray (TInt false) [VInt 4%Z]); ("x", VInt 2%Z);
               ("opt", VInt 9%Z)] eq_refl) as [Hkept _].
  apply Hkept.
  - intros H. inversion H.
  - intros H. inversion H.
  - intros one_input Hin.
    apply elem_of_cons in Hin as [->|Hin]; [discriminate|].
    apply list_elem_of_singleton in Hin as ->. discriminate.
Defined.

Lemma find_decl_runtime_override_witness :
  find_decl demo_runtime_task "runtime.cpu"
  = Some (mkDecl "_runtime" (TAny false))
  ∧ find_decl demo_runtime_task "runtime" = None.
Proof.
  destruct (find_decl_runtime_override demo_runtime_task [] [] "cpu")
    as (Hoverride & Hlast & _).
  - repeat constructor.
  - intros H. inversion H.
  - split; [by apply Hoverride | by apply Hlast].
Defined.

Lemma validate_input_path_accepted_witness :
  (is_downloadable None "/data/ref" true = true ∧ "/data/ref" = "/data/ref")
  ∨ (is_downloadable None "/data/ref" true = false
     ∧ "/data/ref" = os_path_abspath demo_plain_fs "/data/ref"
     ∧ os_path_isdir demo_plain_fs "/data/ref" = true
     ∧ path_really_within demo_plain_fs "/data/ref" "/data" = true
     ∧ (true = true ->
        Forall (clean_walk_item demo_plain_fs "/data/ref")
               (os_walk demo_plain_fs "/data/ref"))).
Proof.
  apply (validate_input_path_accepted demo_plain_fs "/data/ref" true None
           "/data" "/data/ref").
  reflexivity.
Defined.

Lemma validate_input_path_failure_witness :
  (exists m, InputError "File not found: /data/missing" = InputError m)
  ∨ (InputError "File not found: /data/missing" = OSError ∧ false = true
     ∧ WalkOSError ∈ os_walk demo_plain_fs
                       (os_path_abspath demo_plain_fs "/data/missing")).
Proof.
  apply (validate_input_path_failure demo_plain_fs "/data/missing" false None
           "/data" (InputError "File not found: /data/missing")).
  reflexivity.
Defined.

Lemma runner_input_value_failure_witness :
  (exists m, ValueError = InputError m)
  ∨ (ValueError = ValueError
     ∧ exists o, read_as (TArray (TInt false) false false) = TInt o
                 ∨ read_as (TArray (TInt false) false false) = TFloat o)
  ∨ (ValueError = OSError
     ∧ exists o, read_as (TArray (TInt false) false false) = TDirectory o).
Proof.
  apply (runner_input_value_failure no_float no_json no_from_json demo_fs
           None "/" "abc" (TArray (TInt false) false false) ValueError);
    reflexivity.
Defined.

Lemma runner_input_value_shape_witness :
  exists x, @VArray unit (TFile false) [VFile "/data/reads.fq"]
            = VArray (TFile false) [x]
            ∧ is_array x = false
            ∧ runner_input_value no_float no_json no_from_json demo_plain_fs
                "/data/reads.fq" (TFile false) None "/data" = Ok x.
Proof.
  apply (runner_input_value_shape no_float no_json no_from_json
           demo_plain_fs None "/data" "/data/reads.fq"
           (TArray (TFile false) true false)
           (VArray (TFile false) [VFile "/data/reads.fq"]));
    reflexivity.
Defined.

Lemma repeated_tokens_accumulate_witness :
  exists env',
    for_each (cli_step no_float no_json no_from_json any_coerces demo_fs
                demo_task None "/")
      ([("x", VInt 1%Z)], {["x"]})
      ((fun v => "names" +:+ "=" +:+ v) <$> ["a"; "b"; "c"])
    = Ok (env', {["x"]} ∖ {["names"]})
    ∧ env_get "names" env'
      = Some (VArray (TString false) (VString <$> ["a"; "b"; "c"]))
    ∧ forall other, other ≠ "names" ->
        env_get other env' = env_get other [("x", @VInt unit 1%Z)].
Proof.
  apply (repeated_tokens_accumulate no_float no_json no_from_json any_coerces
           demo_fs demo_task None "/" "n" "ames"
           (mkDecl "names" (TArray (TString false) false false))
           false false false eq_refl eq_refl eq_refl eq_refl
           (fun _ _ => eq_refl) "a" ["b"; "c"] [("x", VInt 1%Z)] {["x"]}).
  left. reflexivity.
Defined.

Lemma runner_failure_exit_nonzero_witness :
  3%Z ≠ 0%Z
  ∧ (3%Z ≠ 2%Z -> root_cause demo_failure3 = Some (CommandFailed (Some 3%Z))).
Proof.
  apply (runner_failure_exit_nonzero demo_failure3 false 3). reflexivity.
Defined.

Lemma check_exit_code_same_findings_witness :
  check_exit_code false false ∅ (Some "major") None [findings_doc_a]
  = check_exit_code false false ∅ (Some "major") None [findings_doc_b].
Proof.
  apply (check_exit_code_same_findings false false ∅ (Some "major") None
           [findings_doc_a] [findings_doc_b]).
  intros f. simpl. rewrite !elem_of_cons, elem_of_nil. tauto.
Defined.

Lemma invalid_threshold_ignored_witness :
  check_exit_code true false ∅ (Some "severe") (Some "MINOR") [findings_doc_a]
  = check_exit_code true false ∅ None None [findings_doc_a]
  ∧ check_exit_code true false ∅ (Some "severe") (Some "MINOR")
      [findings_doc_a]
    = if true && existsb (emitted ∅ false)
                   (List.flat_map all_findings [findings_doc_a])
      then 2%Z else 0%Z.
Proof.
  apply (invalid_threshold_ignored true false ∅ "severe" (Some "MINOR")
           [findings_doc_a]); [discriminate | reflexivity].
Defined.

Lemma suppressed_classes_exit_zero_witness :
  check_exit_code true true {["UnusedImport"; "StringCoercion"]}
    (Some "MINOR") None [findings_doc_b] = 0%Z.
Proof.
  apply (suppressed_classes_exit_zero true true
           {["UnusedImport"; "StringCoercion"]} (Some "MINOR") None
           [findings_doc_b]).
  intros f. simpl. rewrite !elem_of_cons, elem_of_nil.
  intros [->|[->|[]]]; simpl; set_solver.
Defined.

Lemma outline_counts_shown_witness :
  should_exit
    (outline ∅ false (Some "MAJOR") findings_doc_b
       {| shown := 4; should_exit := true; info_severity := Some "MAJOR";
          info_reason := None |}) = true.
Proof.
  apply (outline_counts_shown ∅ false (Some "MAJOR") findings_doc_b).
  reflexivity.
Defined.

Lemma env_item_read_witness :
  (env_item_name ("PATH" +:+ "=" +:+ "/bin:/opt=x") = "PATH"
   ∧ env_item_value ("PATH" +:+ "=" +:+ "/bin:/opt=x") = Some "/bin:/opt=x")
  ∧ env_item_name "HOME" = "HOME" ∧ env_item_value "HOME" = None.
Proof.
  destruct (env_item_read "PATH" "/bin:/opt=x" "HOME") as [Hpair Hbare].
  split; [by apply Hpair | by apply Hbare].
Defined.

Lemma runner_env_override_last_wins_witness :
  exists m,
    runner_env_override {["LANG" := Some "C"]} ["A=1"; "B"; "A=2"] = Ok m
    ∧ m !! "LANG" = ({["LANG" := Some "C"]} : gmap string (option string))
                    !! "LANG"
    ∧ m !! env_item_name "A=2" = Some (env_item_value "A=2").
Proof.
  destruct (runner_env_override_last_wins ["A=1"; "B"; "A=2"]
              {["LANG" := Some "C"]}) as (m & Hm & Hkeep & Hlast).
  { repeat constructor; discriminate. }
  exists m. split; [done|]. split.
  - apply Hkeep. intros i Hi.
    rewrite !elem_of_cons, elem_of_nil in Hi.
    destruct Hi as [->|[->|[->|[]]]]; discriminate.
  - apply (Hlast ["A=1"; "B"] "A=2" []); [reflexivity|].
    intros i Hi. inversion Hi.
Defined.

Lemma runner_env_override_rejects_witness :
  runner_env_override ∅ (["A=1"] ++ "=oops" :: ["B=2"])
  = Raise (InputError ("invalid --env argument: " +:+ "=oops")).
Proof.
  apply (runner_env_override_rejects ["A=1"] ["B=2"] "=oops" ∅).
  - repeat constructor; discriminate.
  - reflexivity.
Defined.

Lemma completions_match_prefix_witness :
  String.prefix "na" "names=" = true
  ∧ exists nm, "names=" = nm +:+ "="
      ∧ (nm ∈ (required_inputs demo_task).*1
         ∨ (nm ∈ (available_inputs demo_task).*1
            ∧ forall r, r ∈ (required_inputs demo_task).*1 ->
                        String.prefix "na" (r +:+ "=") = false)).
Proof.
  destruct (completions_match_prefix demo_task "na") as [Hmatch _].
  apply Hmatch; [discriminate | reflexivity |].
  change (completed_input_names demo_task "na")
    with (["names="] : list string).
  left.
Defined.
